(** * chatapp-thread-frontend: notification counter and profile form

    A shallow embedding of the two client components of the forum
    front end:

    - [src/components/layout/navbar.tsx] (second, socket-enabled version
      of [Navbar]): the unread-notification counter, seeded by a REST
      fetch and incremented by [notification:new] socket events;
    - [src/app/profile/page.tsx]: the profile form, its zod schema and
      the [PATCH /api/me] payload built by [onSubmit].

    React's effect semantics are written out as explicit state passing:
    a component instance is a record, every run of an effect is a
    function on that record, and the asynchronous continuations of
    [loadUnreadNotifications] are separate events of a step function. *)

From Stdlib Require Import ZArith Lia.
From stdpp Require Import gmap strings list.

Local Open Scope Z_scope.

(** ** JavaScript strings

    A JS string is a sequence of UTF-16 code units. *)

Abbreviation jsstring := (list Z).

(** An ASCII literal of the source as a JS string. *)
Fixpoint lit (s : string) : jsstring :=
  match s with
  | EmptyString => []
  | String a s' => Z.of_N (Ascii.N_of_ascii a) :: lit s'
  end.

(** ECMAScript [WhiteSpace] and [LineTerminator] code points, the ones
    [String.prototype.trim] strips; all of them are single code units. *)
Definition isWhiteSpace (c : Z) : bool :=
  (c =? 0x09) || (c =? 0x0A) || (c =? 0x0B) || (c =? 0x0C) || (c =? 0x0D)
  || (c =? 0x20) || (c =? 0xA0) || (c =? 0x1680)
  || ((0x2000 <=? c) && (c <=? 0x200A))
  || (c =? 0x2028) || (c =? 0x2029) || (c =? 0x202F) || (c =? 0x205F)
  || (c =? 0x3000) || (c =? 0xFEFF).

Fixpoint trimStart (s : jsstring) : jsstring :=
  match s with
  | [] => []
  | c :: s' => if isWhiteSpace c then trimStart s' else s
  end.

Definition trimEnd (s : jsstring) : jsstring := rev (trimStart (rev s)).

Definition trim (s : jsstring) : jsstring := trimEnd (trimStart s).

(** ASCII instance of [String.prototype.toLowerCase], used to run the
    profile model on concrete ASCII inputs. *)
Definition asciiLower (c : Z) : Z :=
  if (0x41 <=? c) && (c <=? 0x5A) then c + 0x20 else c.

Definition asciiToLowerCase (s : jsstring) : jsstring := asciiLower <$> s.

(** ** Navbar: the notification count reconciler *)

Module Navbar.

(** [userId] of Clerk's [useAuth]: [string | null | undefined]. *)
Inductive UserId :=
| UidUndefined
| UidNull
| UidStr (s : jsstring).

#[global] Instance UserId_eq_dec : EqDecision UserId.
Proof. solve_decision. Defined.

(** JS truthiness of a [userId]: [!userId] holds for [undefined], [null]
    and the empty string. *)
Definition truthy (u : UserId) : bool :=
  match u with
  | UidStr (_ :: _) => true
  | _ => false
  end.

(** [Notification] of [@/types/notification], in the shape of the spec:
    a type tag and an actor with an optional handle. The tag is kept as
    an arbitrary string, since nothing checks it at run time. *)
Record Actor := { handle : option jsstring }.
Record Notification := { type : jsstring; actor : Actor }.

(** Modelled from the spec: the hook [useNotificationCount] of
    [@/hooks/use-notification-count] is not among the sources. The spec
    gives it as one integer cell, [unreadCount], with an operation that
    sets it and one that increments it by 1. *)
Record NotificationCount := { unreadCount : Z }.

Definition setUnreadCount (n : Z) (_ : NotificationCount) : NotificationCount :=
  {| unreadCount := n |}.

Definition incrementUnread (c : NotificationCount) : NotificationCount :=
  {| unreadCount := unreadCount c + 1 |}.

(** State of the request issued by one run of the seed effect. *)
Inductive FetchStatus := InFlight | Settled.

#[global] Instance FetchStatus_eq_dec : EqDecision FetchStatus.
Proof. solve_decision. Defined.

(** The closure created by one run of the [[userId]] effect: its local
    [isMounted], the [userId] it captured and the request it issued, if
    any. *)
Record SeedRun := {
  isMounted : bool;
  seedUser : UserId;
  fetch : option FetchStatus;
}.

Record Toast := { title : string; description : jsstring }.

Inductive LogEntry :=
| LogData (data : list Notification)
| LogText (msg : string).

(** What the component does to its collaborators, in order. *)
Inductive Output :=
| Fetch (run : nat) (url : string)
| Logged (e : LogEntry)
| Toasted (t : Toast)
| SockOn (sock handler : nat)
| SockOff (sock handler : nat).

Record World := {
  count : NotificationCount;          (* the hook's cell *)
  mounted : bool;
  userId : UserId;                    (* useAuth, as of the last render *)
  socket : option nat;                (* useSocket, as of the last render *)
  seeds : list SeedRun;               (* runs of the first effect *)
  listeners : list (nat * nat);       (* (socket, handler) on notification:new *)
  unsubscribe : option (nat * nat);   (* cleanup returned by the second effect *)
  nextHandler : nat;
  out : list Output;
}.

Definition init : World :=
  {| count := {| unreadCount := 0 |}; mounted := false; userId := UidUndefined;
     socket := None; seeds := []; listeners := []; unsubscribe := None;
     nextHandler := 0%nat; out := [] |}.

Definition with_count (f : NotificationCount -> NotificationCount) (w : World) : World :=
  {| count := f (count w); mounted := mounted w; userId := userId w;
     socket := socket w; seeds := seeds w; listeners := listeners w;
     unsubscribe := unsubscribe w; nextHandler := nextHandler w; out := out w |}.

Definition with_props (m : bool) (u : UserId) (s : option nat) (w : World) : World :=
  {| count := count w; mounted := m; userId := u;
     socket := s; seeds := seeds w; listeners := listeners w;
     unsubscribe := unsubscribe w; nextHandler := nextHandler w; out := out w |}.

Definition with_seeds (l : list SeedRun) (w : World) : World :=
  {| count := count w; mounted := mounted w; userId := userId w;
     socket := socket w; seeds := l; listeners := listeners w;
     unsubscribe := unsubscribe w; nextHandler := nextHandler w; out := out w |}.

Definition with_subscription (l : list (nat * nat)) (c : option (nat * nat))
    (n : nat) (w : World) : World :=
  {| count := count w; mounted := mounted w; userId := userId w;
     socket := socket w; seeds := seeds w; listeners := l;
     unsubscribe := c; nextHandler := n; out := out w |}.

Definition emit (o : Output) (w : World) : World :=
  {| count := count w; mounted := mounted w; userId := userId w;
     socket := socket w; seeds := seeds w; listeners := listeners w;
     unsubscribe := unsubscribe w; nextHandler := nextHandler w;
     out := out w ++ [o] |}.

Definition notificationsUrl : string := "/api/notifications?unreadOnly=true".

(** *** First effect, dependencies [[userId]]

    The body declares [let isMounted = true], defines
    [loadUnreadNotifications] and calls it. The call runs up to the
    [await]. The effect returns no cleanup, so nothing ever assigns
    [isMounted] again. *)
Definition seedEffect (w : World) : World :=
  let run := length (seeds w) in
  let isMounted := true in
  if negb (truthy (userId w)) then
    let w := with_seeds (seeds w ++ [{| isMounted := isMounted;
                                        seedUser := userId w;
                                        fetch := None |}]) w in
    if isMounted then with_count (setUnreadCount 0) w else w
  else
    let w := with_seeds (seeds w ++ [{| isMounted := isMounted;
                                        seedUser := userId w;
                                        fetch := Some InFlight |}]) w in
    emit (Fetch run notificationsUrl) w.

Definition settle (run : nat) (sr : SeedRun) (w : World) : World :=
  with_seeds (<[run := {| isMounted := isMounted sr; seedUser := seedUser sr;
                          fetch := Some Settled |}]> (seeds w)) w.

(** Continuation of [loadUnreadNotifications] after the [await], when
    [apiGet] resolves with [data]. *)
Definition seedResolved (run : nat) (data : list Notification) (w : World) : World :=
  match seeds w !! run with
  | Some sr =>
      match fetch sr with
      | Some InFlight =>
          let w := settle run sr w in
          if negb (isMounted sr) then w
          else
            let w := emit (Logged (LogData data)) w in
            with_count (setUnreadCount (Z.of_nat (length data))) w
      | _ => w
      end
  | None => w
  end.

(** The [catch] branch, when [apiGet] rejects. *)
Definition seedRejected (run : nat) (w : World) : World :=
  match seeds w !! run with
  | Some sr =>
      match fetch sr with
      | Some InFlight =>
          let w := settle run sr w in
          if negb (isMounted sr) then w
          else emit (Logged (LogText "Error ocuured")) w
      | _ => w
      end
  | None => w
  end.

(** *** Second effect, dependencies [[socket, incrementUnread]] *)

Definition someone : jsstring := lit "Someone".

(** [payload.actor.handle ?? "Someone"]: only an absent handle falls
    back, an empty one is kept. *)
Definition actorLabel (payload : Notification) : jsstring :=
  match handle (actor payload) with
  | Some h => h
  | None => someone
  end.

Definition toastDescription (payload : Notification) : jsstring :=
  if bool_decide (type payload = lit "REPLY_ON_THREAD")
  then actorLabel payload ++ lit " commented to your thread"
  else actorLabel payload ++ lit " liked your thread".

Definition handleNewNotification (payload : Notification) (w : World) : World :=
  let w := with_count incrementUnread w in
  emit (Toasted {| title := "New Notification";
                   description := toastDescription payload |}) w.

(** [socket.off(event, fn)] removes the first registration of [fn]. *)
Fixpoint removeListener (l : nat * nat) (ls : list (nat * nat)) : list (nat * nat) :=
  match ls with
  | [] => []
  | x :: ls' => if bool_decide (x = l) then ls' else x :: removeListener l ls'
  end.

Definition socketEffect (w : World) : World :=
  match socket w with
  | None => with_subscription (listeners w) None (nextHandler w) w
  | Some s =>
      let h := nextHandler w in
      emit (SockOn s h)
        (with_subscription (listeners w ++ [(s, h)]) (Some (s, h)) (S h) w)
  end.

Definition socketCleanup (w : World) : World :=
  match unsubscribe w with
  | None => w
  | Some l =>
      emit (SockOff l.1 l.2)
        (with_subscription (removeListener l (listeners w)) None (nextHandler w) w)
  end.

(** The transport emits [notification:new] on socket [s]: every handler
    registered on [s] is called, in registration order. *)
Definition deliver (s : nat) (payload : Notification) (w : World) : World :=
  fold_left
    (fun w l => if bool_decide (l.1 = s) then handleNewNotification payload w else w)
    (listeners w) w.

(** *** Events of a component instance *)

Inductive Event :=
| Mount (u : UserId) (s : option nat)
| AuthChanged (u : UserId)
| SocketChanged (s : option nat)
| IncrementChanged
| FetchResolved (run : nat) (data : list Notification)
| FetchRejected (run : nat)
| Push (s : nat) (payload : Notification)
| Unmount.

(** A dependency list is compared with [Object.is]; an effect whose
    dependencies are unchanged does not run again. A re-run calls the
    previous cleanup first. *)
Definition step (e : Event) (w : World) : World :=
  match e with
  | Mount u s =>
      if mounted w then w
      else socketEffect (seedEffect (with_props true u s w))
  | AuthChanged u =>
      if mounted w && negb (bool_decide (u = userId w))
      then seedEffect (with_props true u (socket w) w)
      else w
  | SocketChanged s =>
      if mounted w && negb (bool_decide (s = socket w))
      then socketEffect (socketCleanup (with_props true (userId w) s w))
      else w
  | IncrementChanged =>
      if mounted w then socketEffect (socketCleanup w) else w
  | FetchResolved run data => seedResolved run data w
  | FetchRejected run => seedRejected run w
  | Push s payload => deliver s payload w
  | Unmount =>
      if mounted w
      then with_props false (userId w) (socket w) (socketCleanup w)
      else w
  end.

Definition exec (es : list Event) (w : World) : World :=
  fold_left (fun w e => step e w) es w.

Inductive reachable : World -> Prop :=
| reachable_init : reachable init
| reachable_step e w : reachable w -> reachable (step e w).

(** *** Observations and invariants *)

(** Every closure of the seed effect still has [isMounted = true]. *)
Definition seedsArmed (w : World) : Prop :=
  Forall (fun sr => isMounted sr = true) (seeds w).

(** The socket's listeners are exactly the one the last run of the
    second effect registered, and that one sits on the current socket
    of a mounted component. *)
Definition subscribed (w : World) : Prop :=
  listeners w = option_list (unsubscribe w) ∧
  (if mounted w then fst <$> unsubscribe w = socket w else unsubscribe w = None).

Definition inFlight (w : World) (run : nat) : Prop :=
  ∃ sr, seeds w !! run = Some sr ∧ fetch sr = Some InFlight.

Definition toasts (w : World) : list Toast :=
  omap (fun o => match o with Toasted t => Some t | _ => None end) (out w).

Definition fetches (w : World) : list (nat * string) :=
  omap (fun o => match o with Fetch r u => Some (r, u) | _ => None end) (out w).

(** What a delivery leaves alone: everything except the counter and the
    outputs. *)
Definition sameWiring (w w' : World) : Prop :=
  mounted w' = mounted w ∧ userId w' = userId w ∧ socket w' = socket w ∧
  seeds w' = seeds w ∧ listeners w' = listeners w ∧
  unsubscribe w' = unsubscribe w ∧ nextHandler w' = nextHandler w.

(** *** Sample data *)

Definition u1 : UserId := UidStr (lit "u1").
Definition u2 : UserId := UidStr (lit "u2").

Definition replyFrom (h : option jsstring) : Notification :=
  {| type := lit "REPLY_ON_THREAD"; actor := {| handle := h |} |}.

Definition likeFrom (h : option jsstring) : Notification :=
  {| type := lit "LIKE_ON_THREAD"; actor := {| handle := h |} |}.

Definition unread (k : nat) : list Notification := replicate k (likeFrom None).

End Navbar.

(** ** Profile page: schema and submission *)

Module Profile.

Inductive Field := FDisplayName | FHandle | FBio | FAvatarUrl.

Definition fieldName (f : Field) : string :=
  match f with
  | FDisplayName => "displayName"
  | FHandle => "handle"
  | FBio => "bio"
  | FAvatarUrl => "avatarUrl"
  end.

(** [ProfileFormValues]: every field is a string or [undefined]. The
    same shape holds the raw values of the form and the parsed ones. *)
Record Values := {
  displayName : option jsstring;
  handle : option jsstring;
  bio : option jsstring;
  avatarUrl : option jsstring;
}.

Definition get (f : Field) (v : Values) : option jsstring :=
  match f with
  | FDisplayName => displayName v
  | FHandle => handle v
  | FBio => bio v
  | FAvatarUrl => avatarUrl v
  end.

Definition set (f : Field) (x : option jsstring) (v : Values) : Values :=
  match f with
  | FDisplayName => {| displayName := x; handle := handle v; bio := bio v; avatarUrl := avatarUrl v |}
  | FHandle => {| displayName := displayName v; handle := x; bio := bio v; avatarUrl := avatarUrl v |}
  | FBio => {| displayName := displayName v; handle := handle v; bio := x; avatarUrl := avatarUrl v |}
  | FAvatarUrl => {| displayName := displayName v; handle := handle v; bio := bio v; avatarUrl := x |}
  end.

(** [z.string().transform(trim).transform("" -> undefined).optional()] *)
Definition optionalText (input : option jsstring) : option jsstring :=
  match input with
  | None => None
  | Some value =>
      let value := trim value in
      match value with
      | [] => None
      | _ :: _ => Some value
      end
  end.

Definition ProfileSchema (raw : Values) : Values :=
  {| displayName := optionalText (displayName raw);
     handle := optionalText (handle raw);
     bio := optionalText (bio raw);
     avatarUrl := optionalText (avatarUrl raw) |}.

(** [UserResponse]; the fields shared with the form carry a prefix. *)
Record UserResponse := {
  id : Z;
  clerkUserId : jsstring;
  resp_displayName : option jsstring;
  email : option jsstring;
  resp_handle : option jsstring;
  resp_avatarUrl : option jsstring;
  resp_bio : option jsstring;
}.

Record Toast := { title : string; description : string }.

Inductive Output :=
| Patch (url : string) (payload : gmap string jsstring)
| ToastSuccess (t : Toast).

Record Page := {
  form : Values;          (* current values of the form *)
  isLoading : bool;
  isSaving : bool;
  out : list Output;
}.

Inductive PatchResult :=
| PatchOk (apiResponse : UserResponse)
| PatchFailed.

Definition setIsSaving (b : bool) (p : Page) : Page :=
  {| form := form p; isLoading := isLoading p; isSaving := b; out := out p |}.

Definition reset (v : Values) (p : Page) : Page :=
  {| form := v; isLoading := isLoading p; isSaving := isSaving p; out := out p |}.

Definition emit (o : Output) (p : Page) : Page :=
  {| form := form p; isLoading := isLoading p; isSaving := isSaving p;
     out := out p ++ [o] |}.

(** [if (values.k) payload.k = f(values.k)]: the test is JS truthiness,
    which for [string | undefined] means defined and not empty. *)
Definition assignIf (k : string) (v : option jsstring) (f : jsstring -> jsstring)
    (payload : gmap string jsstring) : gmap string jsstring :=
  match v with
  | Some (c :: s) => <[k := f (c :: s)]> payload
  | _ => payload
  end.

Section WithLowerCase.

(** [String.prototype.toLowerCase] is the engine's; the page does not
    depend on which strings it changes. *)
Variable toLowerCase : jsstring -> jsstring.

Definition buildPayload (values : Values) : gmap string jsstring :=
  let payload : gmap string jsstring := ∅ in
  let payload := assignIf "displayName" (displayName values) (fun x => x) payload in
  let payload := assignIf "handle" (handle values) toLowerCase payload in
  let payload := assignIf "bio" (bio values) (fun x => x) payload in
  let payload := assignIf "avatarUrl" (avatarUrl values) (fun x => x) payload in
  payload.

(** [onSubmit] up to the [await]: the saving flag is raised and the
    request is sent. *)
Definition onSubmitBegin (values : Values) (p : Page) : Page :=
  let p := setIsSaving true p in
  emit (Patch "/api/me" (buildPayload values)) p.

(** [onSubmit] after the [await]: the [try] continues on success, the
    empty [catch] runs on failure, [finally] lowers the flag. *)
Definition onSubmitEnd (r : PatchResult) (p : Page) : Page :=
  let p :=
    match r with
    | PatchOk apiResponse =>
        let p := reset {| displayName := Some (default [] (resp_displayName apiResponse));
                          handle := Some (default [] (resp_handle apiResponse));
                          bio := Some (default [] (resp_bio apiResponse));
                          avatarUrl := Some (default [] (resp_avatarUrl apiResponse)) |} p in
        emit (ToastSuccess {| title := "Profile updated successfully";
                              description := "your changes have been saved" |}) p
    | PatchFailed => p
    end in
  setIsSaving false p.

Definition onSubmit (values : Values) (r : PatchResult) (p : Page) : Page :=
  onSubmitEnd r (onSubmitBegin values p).

(** [form.handleSubmit(onSubmit)] with the zod resolver: the handler
    receives the parsed values. *)
Definition handleSubmit (r : PatchResult) (p : Page) : Page :=
  onSubmit (ProfileSchema (form p)) r p.

End WithLowerCase.

(** The form as first rendered ([defaultValues]). *)
Definition initial : Page :=
  {| form := {| displayName := Some []; handle := Some []; bio := Some [];
                avatarUrl := Some [] |};
     isLoading := false; isSaving := false; out := [] |}.

(** *** Observations *)

(** The toasts among the outputs of the page: the only notices it can
    show. *)
Definition notices (p : Page) : list Toast :=
  omap (fun o => match o with ToastSuccess t => Some t | _ => None end) (out p).

Definition patches (p : Page) : list (string * gmap string jsstring) :=
  omap (fun o => match o with Patch u m => Some (u, m) | _ => None end) (out p).

(** A value passes the [if (values.k)] test of [onSubmit]. *)
Definition sent (v : option jsstring) : option jsstring :=
  match v with
  | Some (c :: s) => Some (c :: s)
  | _ => None
  end.

(** *** Sample data: a form the user has typed into *)

Definition typedValues : Values :=
  {| displayName := Some (lit "  Jay K ");
     handle := Some (lit " JayK");
     bio := Some [0x20; 0x09; 0xA0; 0x3000];
     avatarUrl := Some [] |}.

Definition typed : Page := reset typedValues initial.

End Profile.

(** ** Navbar: what is rendered

    The JSX of [Navbar], as far as it depends on state: the badge, the
    links and the mobile menu. Both versions of the component in
    [navbar.tsx] render the same tree; the first keeps its own
    [unReadCount] and never writes it. *)

Module NavbarView.

(** [String.prototype.startsWith(searchString)], position 0. *)
Fixpoint startsWith (s searchString : jsstring) {struct searchString} : bool :=
  match searchString, s with
  | [], _ => true
  | _ :: _, [] => false
  | c :: searchString', d :: s' => (d =? c) && startsWith s' searchString'
  end.

(** An entry of [navItems]. [match] is a keyword here, hence
    [matches]; its argument is [string | null | undefined] and
    [p?.startsWith(..)] is [undefined] when [p] is nullish. *)
Record NavItem := {
  href : jsstring;
  label : jsstring;
  matches : option jsstring -> option bool;
}.

Definition navItems : list NavItem :=
  [ {| href := lit "/chat"; label := lit "Chat";
       matches := fun p => (fun s => startsWith s (lit "chat")) <$> p |};
    {| href := lit "/profile"; label := lit "Profile";
       matches := fun p => (fun s => startsWith s (lit "profile")) <$> p |} ].

Record Link := {
  key : jsstring;
  to : jsstring;              (* the [href] attribute *)
  className : string;
  children : jsstring;
}.

Definition renderNavlinks (item : NavItem) : Link :=
  {| key := href item;
     to := href item;
     className := "flex items-center px-3 py-2 text-sm font-medium transition-colors bg-primary/20 text-primary rounded-full shadow-sm";
     children := label item |}.

Inductive Icon := XIcon | MenuIcon.

(** [{unreadCount > 0 ? unreadCount : 0}] *)
Definition badge (unreadCount : Z) : Z :=
  if unreadCount >? 0 then unreadCount else 0.

Record Header := {
  desktopNav : list Link;
  bell : Z;                   (* the badge inside [SignedIn] *)
  menuIcon : Icon;
  mobileNav : option (list Link);
}.

Definition render (unreadCount : Z) (mobileMenuOpen : bool) : Header :=
  {| desktopNav := renderNavlinks <$> navItems;
     bell := badge unreadCount;
     menuIcon := if mobileMenuOpen then XIcon else MenuIcon;
     mobileNav := if mobileMenuOpen then Some (renderNavlinks <$> navItems) else None |}.

(** The first version of [Navbar]: two [useState] cells, of which only
    [mobileMenuOpen] has its setter called, with [(prev) => !prev]. *)
Record NavbarV1 := { unReadCount : Z; mobileMenuOpen : bool }.

Definition initV1 : NavbarV1 := {| unReadCount := 0; mobileMenuOpen := false |}.

Definition clickMenu (n : NavbarV1) : NavbarV1 :=
  {| unReadCount := unReadCount n; mobileMenuOpen := negb (mobileMenuOpen n) |}.

Definition renderV1 (n : NavbarV1) : Header :=
  render (unReadCount n) (mobileMenuOpen n).

(** What the second version shows for a state of the reconciler. *)
Definition renderV2 (w : Navbar.World) (mobileMenuOpen : bool) : Header :=
  render (Navbar.unreadCount (Navbar.count w)) mobileMenuOpen.

(** Calls of [socket.on] and [socket.off] so far. *)
Definition sockOns (w : Navbar.World) : list (nat * nat) :=
  omap (fun o => match o with Navbar.SockOn s h => Some (s, h) | _ => None end)
       (Navbar.out w).

Definition sockOffs (w : Navbar.World) : list (nat * nat) :=
  omap (fun o => match o with Navbar.SockOff s h => Some (s, h) | _ => None end)
       (Navbar.out w).

(** The events on which the component sends the notifications request. *)
Definition seeds_on (e : Navbar.Event) (w : Navbar.World) : bool :=
  match e with
  | Navbar.Mount u _ => negb (Navbar.mounted w) && Navbar.truthy u
  | Navbar.AuthChanged u =>
      Navbar.mounted w && negb (bool_decide (u = Navbar.userId w)) && Navbar.truthy u
  | _ => false
  end.

End NavbarView.

(** ** Profile page: loading, editing and the header card *)

Module ProfilePage.
Import Profile.

Definition setIsLoading (b : bool) (p : Page) : Page :=
  {| form := form p; isLoading := b; isSaving := isSaving p; out := out p |}.

(** The argument of both [form.reset] calls: every field of the record
    with [?? ""]. *)
Definition fromResponse (r : UserResponse) : Values :=
  {| displayName := Some (default [] (resp_displayName r));
     handle := Some (default [] (resp_handle r));
     bio := Some (default [] (resp_bio r));
     avatarUrl := Some (default [] (resp_avatarUrl r)) |}.

(** The field of the record that feeds field [f] of the form. *)
Definition respField (f : Field) (r : UserResponse) : option jsstring :=
  match f with
  | FDisplayName => resp_displayName r
  | FHandle => resp_handle r
  | FBio => resp_bio r
  | FAvatarUrl => resp_avatarUrl r
  end.

Inductive LoadStatus := Loading | Loaded.

(** The closure of one run of the [[apiClient, form]] effect. Like the
    seed effect of the navbar it returns no cleanup. *)
Record LoadRun := { isMounted : bool; status : LoadStatus }.

Inductive LogEntry :=
| LogUser (getUserInfo : UserResponse) (tag : string)
| LogErr (err : jsstring).

Record PageWorld := {
  page : Page;
  loads : list LoadRun;
  saves : nat;                 (* PATCH requests in flight *)
  console : list LogEntry;
}.

Definition start : PageWorld :=
  {| page := initial; loads := []; saves := 0%nat; console := [] |}.

Definition with_page (f : Page -> Page) (w : PageWorld) : PageWorld :=
  {| page := f (page w); loads := loads w; saves := saves w; console := console w |}.

Definition with_loads (l : list LoadRun) (w : PageWorld) : PageWorld :=
  {| page := page w; loads := l; saves := saves w; console := console w |}.

Definition with_saves (n : nat) (w : PageWorld) : PageWorld :=
  {| page := page w; loads := loads w; saves := n; console := console w |}.

Definition log (e : LogEntry) (w : PageWorld) : PageWorld :=
  {| page := page w; loads := loads w; saves := saves w; console := console w ++ [e] |}.

(** [loadProfile] up to the [await]. *)
Definition loadEffect (w : PageWorld) : PageWorld :=
  let isMounted := true in
  let w := with_loads (loads w ++ [{| isMounted := isMounted; status := Loading |}]) w in
  with_page (setIsLoading true) w.

Definition finallyLoad (lr : LoadRun) (w : PageWorld) : PageWorld :=
  if isMounted lr then with_page (setIsLoading false) w else w.

Definition settleLoad (run : nat) (lr : LoadRun) (w : PageWorld) : PageWorld :=
  with_loads (<[run := {| isMounted := isMounted lr; status := Loaded |}]> (loads w)) w.

(** [loadProfile] after the [await], when [apiGet] resolves. The early
    [return] still goes through [finally]. *)
Definition loadResolved (run : nat) (getUserInfo : UserResponse) (w : PageWorld)
    : PageWorld :=
  match loads w !! run with
  | Some lr =>
      match status lr with
      | Loading =>
          let w := settleLoad run lr w in
          if negb (isMounted lr) then finallyLoad lr w
          else
            let w := log (LogUser getUserInfo "getUserInfo") w in
            let w := with_page (reset (fromResponse getUserInfo)) w in
            finallyLoad lr w
      | Loaded => w
      end
  | None => w
  end.

(** The [catch] of [loadProfile], which logs without looking at
    [isMounted]. *)
Definition loadRejected (run : nat) (err : jsstring) (w : PageWorld) : PageWorld :=
  match loads w !! run with
  | Some lr =>
      match status lr with
      | Loading =>
          let w := settleLoad run lr w in
          let w := log (LogErr err) w in
          finallyLoad lr w
      | Loaded => w
      end
  | None => w
  end.

Inductive Event :=
| EffectRun
| LoadResolved (run : nat) (getUserInfo : UserResponse)
| LoadRejected (run : nat) (err : jsstring)
| Edit (f : Field) (s : jsstring)
| Submit
| SaveSettled (r : PatchResult).

Section WithLowerCase.

Variable toLowerCase : jsstring -> jsstring.

(** The [disabled] attribute of the inputs and of the button is not a
    guard here: every event is accepted in every state, so what holds of
    all reachable states holds of the ones the attribute lets through. *)
Definition step (e : Event) (w : PageWorld) : PageWorld :=
  match e with
  | EffectRun => loadEffect w
  | LoadResolved run getUserInfo => loadResolved run getUserInfo w
  | LoadRejected run err => loadRejected run err w
  | Edit f s => with_page (fun p => reset (set f (Some s) (form p)) p) w
  | Submit =>
      with_saves (S (saves w))
        (with_page (fun p => onSubmitBegin toLowerCase (ProfileSchema (form p)) p) w)
  | SaveSettled r =>
      match saves w with
      | O => w
      | S n => with_saves n (with_page (onSubmitEnd r) w)
      end
  end.

Definition exec (es : list Event) (w : PageWorld) : PageWorld :=
  fold_left (fun w e => step e w) es w.

Inductive reachable : PageWorld -> Prop :=
| reachable_start : reachable start
| reachable_step e w : reachable w -> reachable (step e w).

End WithLowerCase.

Definition loading (w : PageWorld) (run : nat) : Prop :=
  ∃ lr, loads w !! run = Some lr ∧ status lr = Loading.

Definition loadsArmed (w : PageWorld) : Prop :=
  Forall (fun lr => isMounted lr = true) (loads w).

(** *** The header card, fed by [form.watch] *)

(** [v || d] on [string | undefined]. *)
Definition orElse (v : option jsstring) (d : jsstring) : jsstring :=
  match v with
  | Some (c :: s) => c :: s
  | _ => d
  end.

Record AvatarImage := { src : jsstring; alt : jsstring }.

Record Card := {
  avatar : option AvatarImage;
  cardTitle : jsstring;
  chip : jsstring;
}.

Definition card (v : Values) : Card :=
  let displayNameValue := displayName v in
  let handleValue := handle v in
  let avatarValue := avatarUrl v in
  {| avatar :=
       match avatarValue with
       | Some (_ :: _) =>
           Some {| src := orElse avatarValue (lit "/placeholder.svg");
                   alt := default [] displayNameValue |}
       | _ => None
       end;
     cardTitle := orElse displayNameValue (lit "Your display name");
     chip :=
       match handleValue with
       | Some (c :: s) => lit "@" ++ c :: s
       | _ => lit "@handle"
       end |}.

(** A string that neither starts nor ends with white space. *)
Definition tight (s : jsstring) : Prop :=
  match s with [] => True | c :: _ => isWhiteSpace c = false end ∧
  match last s with None => True | Some c => isWhiteSpace c = false end.

Definition sampleUser : UserResponse :=
  {| id := 7; clerkUserId := lit "user_1";
     resp_displayName := Some (lit "Jay"); email := None;
     resp_handle := None; resp_avatarUrl := None;
     resp_bio := Some (lit "hi") |}.

End ProfilePage.

(** * Properties of the notification count reconciler *)

Module NavbarFacts.
Import Navbar.

Section Frames.

Lemma sameWiring_refl w : sameWiring w w.
Proof. repeat split. Qed.

Lemma handle_wiring payload w : sameWiring w (handleNewNotification payload w).
Proof. repeat split. Qed.

Lemma fold_handlers_wiring (s : nat) payload (ls : list (nat * nat)) w :
  sameWiring w
    (fold_left (fun w l => if bool_decide (l.1 = s)
                           then handleNewNotification payload w else w) ls w).
Proof.
  revert w. induction ls as [|l ls IH]; intros w; simpl.
  - apply sameWiring_refl.
  - destruct (bool_decide (l.1 = s)); [|apply IH].
    specialize (IH (handleNewNotification payload w)).
    unfold sameWiring in *. simpl in IH. exact IH.
Qed.

Lemma deliver_wiring s payload w : sameWiring w (deliver s payload w).
Proof. apply fold_handlers_wiring. Qed.

Lemma deliver_single s h payload w :
  listeners w = [(s, h)] → deliver s payload w = handleNewNotification payload w.
Proof.
  intros Hl. unfold deliver. rewrite Hl. simpl.
  rewrite bool_decide_eq_true_2; done.
Qed.

Lemma deliver_nobody s payload w :
  listeners w = [] → deliver s payload w = w.
Proof. intros Hl. unfold deliver. rewrite Hl. done. Qed.

Lemma deliver_elsewhere s s' h payload w :
  listeners w = [(s', h)] → s' ≠ s → deliver s payload w = w.
Proof.
  intros Hl Hne. unfold deliver. rewrite Hl. simpl.
  rewrite bool_decide_eq_false_2; done.
Qed.

End Frames.

Section Invariants.

Lemma seedEffect_armed w : seedsArmed w → seedsArmed (seedEffect w).
Proof.
  unfold seedsArmed, seedEffect. intros H.
  destruct (truthy (userId w)); simpl; apply Forall_app; split; auto.
Qed.

Lemma settle_armed run sr w :
  seedsArmed w → seeds w !! run = Some sr → seedsArmed (settle run sr w).
Proof.
  unfold seedsArmed, settle. intros H Hsr. simpl.
  apply Forall_insert; [done|]. simpl.
  rewrite Forall_lookup in H. by apply (H run).
Qed.

Lemma step_armed e w : seedsArmed w → seedsArmed (step e w).
Proof.
  intros H. destruct e; simpl.
  - destruct (mounted w); [done|]. unfold socketEffect.
    set (w1 := seedEffect _).
    assert (seedsArmed w1) by (by apply seedEffect_armed).
    by destruct (socket w1).
  - destruct (mounted w && _); [|done]. by apply seedEffect_armed.
  - destruct (mounted w && _); [|done]. unfold socketEffect, socketCleanup. simpl.
    destruct (unsubscribe w); by destruct s.
  - destruct (mounted w); [|done]. unfold socketEffect, socketCleanup.
    destruct (unsubscribe w); simpl; by destruct (socket w).
  - unfold seedResolved. destruct (seeds w !! run) as [sr|] eqn:Hsr; [|done].
    destruct (fetch sr) as [[]|]; try done.
    pose proof (settle_armed run sr w H Hsr).
    by destruct (isMounted sr).
  - unfold seedRejected. destruct (seeds w !! run) as [sr|] eqn:Hsr; [|done].
    destruct (fetch sr) as [[]|]; try done.
    pose proof (settle_armed run sr w H Hsr).
    by destruct (isMounted sr).
  - unfold seedsArmed. destruct (deliver_wiring s payload w) as (_&_&_&->&_). done.
  - destruct (mounted w); [|done]. unfold socketCleanup.
    by destruct (unsubscribe w).
Qed.

(** No reachable closure has had its [isMounted] cleared. *)
Lemma reachable_armed w : reachable w → seedsArmed w.
Proof.
  induction 1 as [|e w _ IH]; [by constructor|by apply step_armed].
Qed.

Lemma removeListener_head l ls : removeListener l (l :: ls) = ls.
Proof. simpl. by rewrite bool_decide_eq_true_2. Qed.

Lemma seedEffect_subscribed w : subscribed w → subscribed (seedEffect w).
Proof.
  unfold subscribed, seedEffect. by destruct (truthy (userId w)).
Qed.

Lemma socketCleanup_spec w :
  listeners w = option_list (unsubscribe w) →
  listeners (socketCleanup w) = [] ∧ unsubscribe (socketCleanup w) = None ∧
  mounted (socketCleanup w) = mounted w ∧ socket (socketCleanup w) = socket w.
Proof.
  intros Hl. unfold socketCleanup.
  destruct (unsubscribe w) as [l|] eqn:Hu; simpl in *.
  - rewrite Hl. by rewrite removeListener_head.
  - by rewrite Hu.
Qed.

Lemma socketEffect_subscribed w :
  listeners w = [] → mounted w = true → subscribed (socketEffect w).
Proof.
  intros Hl Hm. unfold subscribed, socketEffect.
  destruct (socket w) as [s|] eqn:Hs; simpl; rewrite ?Hl, ?Hm, ?Hs; done.
Qed.

Lemma step_subscribed e w : subscribed w → subscribed (step e w).
Proof.
  intros H. destruct e; simpl.
  - destruct (mounted w) eqn:Hm; [done|].
    destruct H as [Hl Hu]. rewrite Hm in Hu. rewrite Hu in Hl.
    apply socketEffect_subscribed.
    + unfold seedEffect; simpl. by destruct (truthy u).
    + unfold seedEffect; simpl. by destruct (truthy u).
  - destruct (mounted w) eqn:Hm; [|done]. simpl.
    destruct (negb _); [|done].
    apply seedEffect_subscribed. unfold subscribed in *. simpl. by rewrite Hm in H.
  - destruct (mounted w) eqn:Hm; [|done]. simpl.
    destruct (negb _); [|done].
    set (w0 := with_props true (userId w) s w).
    destruct (socketCleanup_spec w0 (proj1 H)) as (Hl & _ & Hm' & _).
    by apply socketEffect_subscribed.
  - destruct (mounted w) eqn:Hm; [|done].
    destruct (socketCleanup_spec w (proj1 H)) as (Hl & _ & Hm' & _).
    apply socketEffect_subscribed; [done|congruence].
  - unfold seedResolved. destruct (seeds w !! run) as [sr|]; [|done].
    destruct (fetch sr) as [[]|]; try done.
    by destruct (isMounted sr).
  - unfold seedRejected. destruct (seeds w !! run) as [sr|]; [|done].
    destruct (fetch sr) as [[]|]; try done.
    by destruct (isMounted sr).
  - destruct (deliver_wiring s payload w) as (Hm & _ & Hs & _ & Hl & Hu & _).
    unfold subscribed. by rewrite Hm, Hs, Hl, Hu.
  - destruct (mounted w) eqn:Hm; [|done].
    destruct (socketCleanup_spec w (proj1 H)) as (Hl & Hu & _ & _).
    unfold subscribed. simpl. by rewrite Hl, Hu.
Qed.

(** In every reachable state the component has at most the one listener
    its last effect run registered. *)
Lemma reachable_subscribed w : reachable w → subscribed w.
Proof.
  induction 1 as [|e w _ IH]; [done|by apply step_subscribed].
Qed.

Lemma exec_reachable es w : reachable w → reachable (exec es w).
Proof.
  revert w. induction es as [|e es IH]; intros w Hw; simpl; [done|].
  apply IH. by constructor.
Qed.

(** A mounted component with a socket has exactly one listener, on that
    socket; without a socket, or once unmounted, it has none. *)
Lemma reachable_listeners w :
  reachable w →
  match mounted w, socket w with
  | true, Some s => ∃ h, listeners w = [(s, h)]
  | _, _ => listeners w = []
  end.
Proof.
  intros Hw. destruct (reachable_subscribed w Hw) as [Hl Hu].
  destruct (mounted w).
  - destruct (unsubscribe w) as [[s h]|]; simpl in *.
    + rewrite <- Hu. by exists h.
    + by rewrite <- Hu.
  - by rewrite Hu in Hl.
Qed.

End Invariants.

Section Seeding.

Lemma resolved_applies w run sr data :
  seedsArmed w → seeds w !! run = Some sr → fetch sr = Some InFlight →
  step (FetchResolved run data) w =
    with_count (setUnreadCount (Z.of_nat (length data)))
      (emit (Logged (LogData data)) (settle run sr w)).
Proof.
  intros Ha Hsr Hf. simpl. unfold seedResolved. rewrite Hsr, Hf.
  unfold seedsArmed in Ha. rewrite Forall_lookup in Ha.
  by rewrite (Ha run sr Hsr).
Qed.

Lemma rejected_logs w run sr :
  seedsArmed w → seeds w !! run = Some sr → fetch sr = Some InFlight →
  step (FetchRejected run) w =
    emit (Logged (LogText "Error ocuured")) (settle run sr w).
Proof.
  intros Ha Hsr Hf. simpl. unfold seedRejected. rewrite Hsr, Hf.
  unfold seedsArmed in Ha. rewrite Forall_lookup in Ha.
  by rewrite (Ha run sr Hsr).
Qed.

Lemma toasts_emit_other o w :
  (∀ t, o ≠ Toasted t) → toasts (emit o w) = toasts w.
Proof.
  intros Ho. unfold toasts. simpl. rewrite omap_app. simpl.
  destruct o; try by rewrite app_nil_r. by destruct (Ho t).
Qed.

(** C1, evaluated on the code: session u1 is mounted and its fetch
    (run 0) stays in flight; the session changes to u2, whose fetch
    (run 1) resolves with 2 notifications; when run 0 then resolves with
    5, its closure still has [isMounted = true] and the count for u2 is
    overwritten with 5. *)
Theorem stale_seed_overwrites :
  let w2 := exec [Mount u1 None; AuthChanged u2; FetchResolved 1 (unread 2)] init in
  userId w2 = u2 ∧
  unreadCount (count w2) = 2 ∧
  (seedUser <$> seeds w2 !! 0%nat) = Some u1 ∧
  (isMounted <$> seeds w2 !! 0%nat) = Some true ∧
  unreadCount (count (step (FetchResolved 0 (unread 5)) w2)) = 5.
Proof. vm_compute. repeat split; reflexivity. Qed.

(** C2: a seed run with the session identity absent sets [unreadCount]
    to 0 and issues no fetch; a seed run with the identity present
    issues the fetch, and when the fetch of the most recent seed run
    resolves with a collection of length K, [unreadCount] becomes K
    whatever it was before. *)
Theorem seed_sets_count (w : World) :
  (truthy (userId w) = false →
     unreadCount (count (seedEffect w)) = 0 ∧ fetches (seedEffect w) = fetches w ∧
     ¬ inFlight (seedEffect w) (length (seeds w))) ∧
  (truthy (userId w) = true →
     inFlight (seedEffect w) (length (seeds w)) ∧
     fetches (seedEffect w) = fetches w ++ [(length (seeds w), notificationsUrl)]) ∧
  (reachable w →
   ∀ run data, inFlight w run → S run = length (seeds w) →
     unreadCount (count (step (FetchResolved run data) w)) = Z.of_nat (length data)).
Proof.
  split; [|split].
  - intros Hu. unfold seedEffect. rewrite Hu. simpl. repeat split.
    intros (sr & Hsr & Hf). simpl in Hsr. rewrite lookup_app_r in Hsr by done.
    rewrite Nat.sub_diag in Hsr. simpl in Hsr. by simplify_eq.
  - intros Hu. unfold seedEffect. rewrite Hu. simpl. split.
    + eexists. split.
      * simpl. rewrite lookup_app_r by done. by rewrite Nat.sub_diag.
      * reflexivity.
    + unfold fetches. simpl. by rewrite omap_app.
  - intros Hw run data (sr & Hsr & Hf) _.
    by rewrite (resolved_applies w run sr data (reachable_armed w Hw) Hsr Hf).
Qed.

Lemma seed_sets_count_witness :
  let wa := exec [Mount UidNull (Some 0%nat); Push 0%nat (likeFrom None)] init in
  let wp := exec [Mount u1 None; Push 0%nat (likeFrom None)] init in
  (unreadCount (count wa) = 1 ∧
   unreadCount (count (seedEffect wa)) = 0 ∧ fetches (seedEffect wa) = fetches wa) ∧
  unreadCount (count (step (FetchResolved 0 (unread 3)) wp)) = 3.
Proof.
  split.
  - split; [reflexivity|].
    destruct (proj1 (seed_sets_count
                (exec [Mount UidNull (Some 0%nat); Push 0%nat (likeFrom None)] init))
                eq_refl) as (H0 & Hf & _).
    exact (conj H0 Hf).
  - apply (proj2 (proj2 (seed_sets_count
                (exec [Mount u1 None; Push 0%nat (likeFrom None)] init)))).
    + apply exec_reachable. constructor.
    + eexists. split; reflexivity.
    + reflexivity.
Defined.

(** C5: when the fetch of a seed run fails, [unreadCount] keeps its
    value, one entry goes to the console, and no toast is shown. *)
Theorem seed_failure_keeps_count (w : World) (run : nat) :
  reachable w → inFlight w run →
  let w' := step (FetchRejected run) w in
  count w' = count w ∧
  out w' = out w ++ [Logged (LogText "Error ocuured")] ∧
  toasts w' = toasts w.
Proof.
  intros Hw (sr & Hsr & Hf). cbv zeta.
  rewrite (rejected_logs w run sr (reachable_armed w Hw) Hsr Hf).
  repeat split. by rewrite toasts_emit_other.
Qed.

Lemma seed_failure_keeps_count_witness :
  let w := exec [Mount u1 None; FetchResolved 0 (unread 3); AuthChanged u2] init in
  let w' := step (FetchRejected 1) w in
  unreadCount (count w) = 3 ∧
  count w' = count w ∧
  out w' = out w ++ [Logged (LogText "Error ocuured")] ∧
  toasts w' = toasts w.
Proof.
  split; [reflexivity|].
  apply (seed_failure_keeps_count
           (exec [Mount u1 None; FetchResolved 0 (unread 3); AuthChanged u2] init) 1).
  - apply exec_reachable. constructor.
  - eexists. split; reflexivity.
Defined.

End Seeding.

Section PushEvents.

(** A push on the socket of a mounted component reaches exactly one
    handler. *)
Lemma push_runs_handler_once w s payload :
  reachable w → mounted w = true → socket w = Some s →
  step (Push s payload) w = handleNewNotification payload w.
Proof.
  intros Hw Hm Hs. pose proof (reachable_listeners w Hw) as Hl.
  rewrite Hm, Hs in Hl. destruct Hl as [h Hl]. simpl.
  by apply (deliver_single s h).
Qed.

(** A push on any other socket, or while the component is unmounted,
    reaches no handler of the component. *)
Lemma push_elsewhere_ignored w s payload :
  reachable w → (mounted w = false ∨ socket w ≠ Some s) →
  step (Push s payload) w = w.
Proof.
  intros Hw Hor. pose proof (reachable_listeners w Hw) as Hl. simpl.
  destruct (mounted w); [destruct (socket w) as [s'|]|];
    try (by apply deliver_nobody).
  destruct Hl as [h Hl]. apply (deliver_elsewhere s s' h); [done|].
  destruct Hor as [|Hne]; [done|]. congruence.
Qed.

Lemma toasts_handle payload w :
  toasts (handleNewNotification payload w) =
    toasts w ++ [{| title := "New Notification";
                    description := toastDescription payload |}].
Proof. unfold toasts. simpl. by rewrite omap_app. Qed.

(** C3: a push event delivered to the mounted component increments
    [unreadCount] by exactly 1 and emits exactly one toast; its text is
    the actor's handle, or "Someone" when the handle is absent, followed
    by the phrase chosen by the notification's type. *)
Theorem push_increments_and_toasts (w : World) (s : nat) (payload : Notification) :
  reachable w → mounted w = true → socket w = Some s →
  let w' := step (Push s payload) w in
  unreadCount (count w') = unreadCount (count w) + 1 ∧
  toasts w' =
    toasts w ++
    [{| title := "New Notification";
        description :=
          default (lit "Someone") (handle (actor payload)) ++
          (if bool_decide (type payload = lit "REPLY_ON_THREAD")
           then lit " commented to your thread"
           else lit " liked your thread") |}] ∧
  fetches w' = fetches w.
Proof.
  intros Hw Hm Hs. cbv zeta.
  rewrite (push_runs_handler_once w s payload Hw Hm Hs).
  split; [reflexivity|]. split.
  - rewrite toasts_handle. do 3 f_equal. unfold toastDescription, actorLabel, someone.
    destruct (handle (actor payload)); by destruct (bool_decide _).
  - unfold fetches. simpl. rewrite omap_app. simpl. by rewrite app_nil_r.
Qed.

Lemma push_increments_and_toasts_witness :
  let w := exec [Mount u1 (Some 0%nat); FetchResolved 0 (unread 3)] init in
  let wj := step (Push 0%nat (replyFrom (Some (lit "jay")))) w in
  let wl := step (Push 0%nat (likeFrom None)) w in
  unreadCount (count w) = 3 ∧
  (unreadCount (count wj) = 4 ∧
   toasts wj = [{| title := "New Notification";
                   description := lit "jay commented to your thread" |}]) ∧
  (unreadCount (count wl) = 4 ∧
   toasts wl = [{| title := "New Notification";
                   description := lit "Someone liked your thread" |}]).
Proof.
  assert (Hw : reachable (exec [Mount u1 (Some 0%nat); FetchResolved 0 (unread 3)] init))
    by (apply exec_reachable; constructor).
  split; [reflexivity|]. split.
  - destruct (push_increments_and_toasts _ 0%nat (replyFrom (Some (lit "jay")))
                Hw eq_refl eq_refl) as (Hc & Ht & _).
    split; [exact Hc|exact Ht].
  - destruct (push_increments_and_toasts _ 0%nat (likeFrom None)
                Hw eq_refl eq_refl) as (Hc & Ht & _).
    split; [exact Hc|exact Ht].
Defined.

(** C9: the toast of a push notification reads "commented to your
    thread" exactly when the type is REPLY_ON_THREAD; for every other
    type, enumerated or not, it reads "liked your thread". *)
Theorem other_types_read_liked (payload : Notification) (w : World) :
  toasts (handleNewNotification payload w) =
    toasts w ++ [{| title := "New Notification";
                    description := toastDescription payload |}] ∧
  (type payload ≠ lit "REPLY_ON_THREAD" →
     toastDescription payload = actorLabel payload ++ lit " liked your thread") ∧
  (type payload = lit "REPLY_ON_THREAD" →
     toastDescription payload = actorLabel payload ++ lit " commented to your thread").
Proof.
  split; [apply toasts_handle|]. unfold toastDescription. split; intros H.
  - by rewrite bool_decide_eq_false_2.
  - by rewrite bool_decide_eq_true_2.
Qed.

Lemma other_types_read_liked_witness :
  toastDescription {| type := lit "MENTION"; actor := {| handle := Some (lit "jay") |} |}
    = lit "jay liked your thread"
  ∧ toastDescription {| type := lit "reply_on_thread"; actor := {| handle := None |} |}
    = lit "Someone liked your thread"
  ∧ toastDescription {| type := lit "REPLY_ON_THREAD"; actor := {| handle := None |} |}
    = lit "Someone commented to your thread".
Proof.
  split; [|split].
  - apply (proj1 (proj2 (other_types_read_liked
             {| type := lit "MENTION"; actor := {| handle := Some (lit "jay") |} |} init))).
    vm_compute. discriminate.
  - apply (proj1 (proj2 (other_types_read_liked
             {| type := lit "reply_on_thread"; actor := {| handle := None |} |} init))).
    vm_compute. discriminate.
  - apply (proj2 (proj2 (other_types_read_liked
             {| type := lit "REPLY_ON_THREAD"; actor := {| handle := None |} |} init))).
    reflexivity.
Defined.

End PushEvents.

Section SignOut.

(** C4 as stated fails: u1 is seeded with 3 unread notifications and
    signs out, which clears the count; the listener is still on the
    socket, and the next push event raises the cleared count to 1
    although no seed has run since the sign-out. *)
Lemma push_after_signout_increments :
  let w := exec [Mount u1 (Some 0%nat); FetchResolved 0 (unread 3);
                 AuthChanged UidNull] init in
  let w' := step (Push 0%nat (likeFrom None)) w in
  truthy (userId w) = false ∧
  unreadCount (count w) = 0 ∧
  truthy (userId w') = false ∧
  seeds w' = seeds w ∧
  unreadCount (count w') = 1.
Proof. vm_compute. repeat split; reflexivity. Qed.

(** C4, amended: when the session identity becomes absent the seed
    effect resets [unreadCount] to 0 without a fetch; the push handler
    does not look at the session, so a push event delivered on the
    component's socket after the sign-out raises the count to 1. *)
Theorem signout_resets_push_still_counts (w : World) (u : UserId) :
  reachable w → mounted w = true → truthy (userId w) = true → truthy u = false →
  let w0 := step (AuthChanged u) w in
  unreadCount (count w0) = 0 ∧
  fetches w0 = fetches w ∧
  ∀ s payload, socket w = Some s →
    unreadCount (count (step (Push s payload) w0)) = 1.
Proof.
  intros Hw Hm Ht Hu.
  assert (Hne : u ≠ userId w) by (intros ->; congruence).
  assert (Hstep : step (AuthChanged u) w = seedEffect (with_props true u (socket w) w)).
  { simpl. rewrite Hm. by rewrite bool_decide_eq_false_2. }
  cbv zeta.
  assert (Hseed : seedEffect (with_props true u (socket w) w) =
                  with_count (setUnreadCount 0)
                    (with_seeds (seeds w ++ [{| isMounted := true; seedUser := u;
                                                fetch := None |}])
                       (with_props true u (socket w) w))).
  { unfold seedEffect. simpl. by rewrite Hu. }
  split; [|split].
  - by rewrite Hstep, Hseed.
  - by rewrite Hstep, Hseed.
  - intros s payload Hs.
    rewrite (push_runs_handler_once (step (AuthChanged u) w) s payload).
    + by rewrite Hstep, Hseed.
    + by constructor.
    + by rewrite Hstep, Hseed.
    + by rewrite Hstep, Hseed.
Qed.

Lemma signout_resets_push_still_counts_witness :
  let w := exec [Mount u1 (Some 0%nat); FetchResolved 0 (unread 3)] init in
  let w0 := step (AuthChanged UidNull) w in
  unreadCount (count w) = 3 ∧
  unreadCount (count w0) = 0 ∧
  unreadCount (count (step (Push 0%nat (replyFrom (Some (lit "jay")))) w0)) = 1.
Proof.
  split; [reflexivity|].
  destruct (signout_resets_push_still_counts
              (exec [Mount u1 (Some 0%nat); FetchResolved 0 (unread 3)] init) UidNull)
    as (H0 & _ & Hp).
  - apply exec_reachable. constructor.
  - reflexivity.
  - reflexivity.
  - reflexivity.
  - split; [exact H0|]. apply Hp. reflexivity.
Defined.

End SignOut.

Section Subscription.

(** C6 as stated fails: the subscription follows the socket, not the
    session. With u1 mounted on socket 0 the handler 0 is registered;
    when the session changes to u2 the only thing the component does is
    issue the new fetch: handler 0 is neither removed nor replaced. *)
Lemma session_change_keeps_listener :
  let w := exec [Mount u1 (Some 0%nat)] init in
  let w' := step (AuthChanged u2) w in
  userId w = u1 ∧ listeners w = [(0%nat, 0%nat)] ∧
  userId w' = u2 ∧ listeners w' = [(0%nat, 0%nat)] ∧
  out w' = out w ++ [Fetch 1 notificationsUrl].
Proof. vm_compute. repeat split; reflexivity. Qed.

Lemma authChanged_wiring u w :
  listeners (step (AuthChanged u) w) = listeners w ∧
  unsubscribe (step (AuthChanged u) w) = unsubscribe w.
Proof.
  simpl. destruct (mounted w && _); [|done].
  unfold seedEffect. simpl. by destruct (truthy u).
Qed.

(** C6, amended: while the component is mounted with a socket it holds
    exactly one subscription to [notification:new], on that socket, and
    none otherwise, so no reachable state has two live listeners; the
    subscription is removed when the component is torn down and when the
    socket changes (a fresh one is then made on the new socket), whereas
    a change of session alone leaves it in place. *)
Theorem one_listener_per_socket (w : World) :
  reachable w →
  (length (listeners w) ≤ 1)%nat ∧
  match mounted w, socket w with
  | true, Some s => ∃ h, listeners w = [(s, h)]
  | _, _ => listeners w = []
  end ∧
  listeners (step Unmount w) = [] ∧
  (∀ s', mounted w = true → s' ≠ socket w →
     listeners (step (SocketChanged s') w) =
       match s' with Some s => [(s, nextHandler w)] | None => [] end) ∧
  (mounted w = true →
     listeners (step IncrementChanged w) =
       match socket w with Some s => [(s, nextHandler w)] | None => [] end) ∧
  (∀ u, listeners (step (AuthChanged u) w) = listeners w ∧
        unsubscribe (step (AuthChanged u) w) = unsubscribe w).
Proof.
  intros Hw. pose proof (reachable_listeners w Hw) as Hl.
  pose proof (reachable_subscribed w Hw) as Hsub.
  split; [|split; [exact Hl|split; [|split; [|split]]]].
  - destruct (mounted w); [destruct (socket w)|]; try (rewrite Hl; simpl; lia).
    destruct Hl as [h ->]. simpl. lia.
  - pose proof (reachable_listeners _ (reachable_step Unmount w Hw)) as Hl'.
    assert (Hm : mounted (step Unmount w) = false).
    { simpl. by destruct (mounted w) eqn:Hm. }
    by rewrite Hm in Hl'.
  - intros s' Hm Hne. simpl. rewrite Hm. rewrite bool_decide_eq_false_2 by done. simpl.
    set (w0 := with_props true (userId w) s' w).
    destruct (socketCleanup_spec w0 (proj1 Hsub)) as (Hl0 & _ & _ & Hs0).
    unfold socketEffect. rewrite Hs0. simpl.
    destruct s' as [s|]; simpl; rewrite Hl0; [|done].
    unfold socketCleanup. simpl. by destruct (unsubscribe w).
  - intros Hm. simpl. rewrite Hm.
    destruct (socketCleanup_spec w (proj1 Hsub)) as (Hl0 & _ & _ & Hs0).
    unfold socketEffect. rewrite Hs0.
    destruct (socket w) as [s|]; simpl; rewrite Hl0; [|done].
    unfold socketCleanup. by destruct (unsubscribe w).
  - intros u. apply authChanged_wiring.
Qed.

Lemma one_listener_per_socket_witness :
  let w := exec [Mount u1 (Some 0%nat); IncrementChanged; AuthChanged u2] init in
  listeners w = [(0%nat, 1%nat)] ∧
  (length (listeners w) ≤ 1)%nat ∧
  listeners (step Unmount w) = [] ∧
  listeners (step (SocketChanged (Some 7%nat)) w) = [(7%nat, 2%nat)].
Proof.
  split; [reflexivity|].
  destruct (one_listener_per_socket
              (exec [Mount u1 (Some 0%nat); IncrementChanged; AuthChanged u2] init))
    as (H1 & _ & Hu & Hs & _ & _).
  - apply exec_reachable. constructor.
  - split; [exact H1|]. split; [exact Hu|].
    apply (Hs (Some 7%nat)); [reflexivity|discriminate].
Defined.

End Subscription.

End NavbarFacts.

(** * Properties of the profile form *)

Module ProfileFacts.
Import Profile.

Section Trim.

Lemma trimStart_blank s : forallb isWhiteSpace s = true → trimStart s = [].
Proof.
  induction s as [|c s IH]; simpl; [done|].
  intros [Hc Hs]%andb_prop. rewrite Hc. by apply IH.
Qed.

Lemma trimStart_nil_blank s : trimStart s = [] → forallb isWhiteSpace s = true.
Proof.
  induction s as [|c s IH]; simpl; [done|].
  destruct (isWhiteSpace c); [exact IH|done].
Qed.

(** What [trimStart] returns is empty or starts with a character that
    is not white space. *)
Lemma trimStart_head s :
  match trimStart s with
  | [] => True
  | c :: _ => isWhiteSpace c = false
  end.
Proof.
  induction s as [|c s IH]; simpl; [done|].
  destruct (isWhiteSpace c) eqn:Hc; [exact IH|exact Hc].
Qed.

Lemma forallb_rev (f : Z → bool) s : forallb f (rev s) = forallb f s.
Proof.
  induction s as [|c s IH]; simpl; [done|].
  rewrite forallb_app, IH. simpl. rewrite andb_true_r. apply andb_comm.
Qed.

(** [trim] returns the empty string exactly on the strings made of
    white space only. *)
Lemma trim_nil_iff s : trim s = [] ↔ forallb isWhiteSpace s = true.
Proof.
  unfold trim, trimEnd. split.
  - intros H. apply (f_equal (@rev Z)) in H. rewrite rev_involutive in H. simpl in H.
    apply trimStart_nil_blank in H. rewrite forallb_rev in H.
    pose proof (trimStart_head s) as Hh.
    destruct (trimStart s) as [|c t] eqn:Ht; [by apply trimStart_nil_blank|].
    simpl in H. by rewrite Hh in H.
  - intros H. by rewrite (trimStart_blank s H).
Qed.

Lemma optionalText_blank s :
  forallb isWhiteSpace s = true → optionalText (Some s) = None.
Proof. intros H. unfold optionalText. by rewrite (proj2 (trim_nil_iff s) H). Qed.

Lemma optionalText_sent v : sent (optionalText v) = optionalText v.
Proof. destruct v as [s|]; [|done]. simpl. by destruct (trim s). Qed.

End Trim.

Section Payload.

Variable toLowerCase : jsstring → jsstring.

(** The payload field by field: a key is present exactly when its value
    passes the truthiness test, and only the handle is rewritten. *)
Lemma buildPayload_lookup values f :
  buildPayload toLowerCase values !! fieldName f =
    (match f with FHandle => toLowerCase | _ => fun x => x end) <$> sent (get f values).
Proof.
  unfold buildPayload, assignIf.
  destruct values as [[[|? ?]|] [[|? ?]|] [[|? ?]|] [[|? ?]|]];
    destruct f; simpl;
    repeat first [ rewrite lookup_insert_eq
                 | rewrite lookup_insert_ne by done
                 | rewrite lookup_empty ];
    reflexivity.
Qed.

Lemma assignIf_dom k v f (m : gmap string jsstring) :
  dom (assignIf k v f m) ⊆ {[k]} ∪ dom m.
Proof.
  unfold assignIf. destruct v as [[|c s]|]; rewrite ?dom_insert_L; set_solver.
Qed.

Lemma buildPayload_dom values :
  dom (buildPayload toLowerCase values) ⊆
    ({[ "displayName"; "handle"; "bio"; "avatarUrl" ]} : gset string).
Proof.
  unfold buildPayload.
  repeat (etrans; [apply assignIf_dom|]; apply union_least;
          [apply elem_of_subseteq_singleton; set_solver|]).
  rewrite dom_empty_L. apply empty_subseteq.
Qed.

End Payload.

Section Submission.

Lemma get_ProfileSchema f raw : get f (ProfileSchema raw) = optionalText (get f raw).
Proof. by destruct f. Qed.

Lemma ProfileSchema_set_blank f raw s :
  get f raw = Some s → forallb isWhiteSpace s = true →
  ProfileSchema (set f (Some []) raw) = ProfileSchema raw.
Proof.
  intros Hg Hs. pose proof (optionalText_blank s Hs) as Hb.
  destruct raw as [d h b a]. destruct f; simpl in *; subst;
    unfold ProfileSchema; simpl; by rewrite Hb.
Qed.

Lemma patches_handleSubmit toLowerCase r p :
  patches (handleSubmit toLowerCase r p) =
    patches p ++ [("/api/me"%string, buildPayload toLowerCase (ProfileSchema (form p)))].
Proof.
  unfold patches, handleSubmit, onSubmit, onSubmitEnd, onSubmitBegin.
  destruct r; simpl; rewrite ?omap_app; simpl; by rewrite ?app_nil_r.
Qed.

(** C7: the body of the PATCH /api/me request of a submission has no
    key outside displayName, handle, bio and avatarUrl; a field whose
    form value is empty has no key in it; the handle, when present, is
    the lower-cased (trimmed) form value, and every other field that is
    present carries its trimmed form value. *)
Theorem payload_partial_record (toLowerCase : jsstring → jsstring)
    (r : PatchResult) (p : Page) :
  let payload := buildPayload toLowerCase (ProfileSchema (form p)) in
  patches (handleSubmit toLowerCase r p) = patches p ++ [("/api/me"%string, payload)] ∧
  dom payload ⊆ ({[ "displayName"; "handle"; "bio"; "avatarUrl" ]} : gset string) ∧
  (∀ f, get f (form p) = Some [] ∨ get f (form p) = None →
        payload !! fieldName f = None) ∧
  payload !! "handle" = toLowerCase <$> optionalText (handle (form p)) ∧
  (∀ f, f ≠ FHandle → payload !! fieldName f = optionalText (get f (form p)) ∧
                       payload !! fieldName f ≠ Some []).
Proof.
  cbv zeta. split; [apply patches_handleSubmit|].
  split; [apply buildPayload_dom|].
  split; [|split].
  - intros f Hf. rewrite buildPayload_lookup, get_ProfileSchema.
    by destruct Hf as [-> | ->].
  - rewrite (buildPayload_lookup toLowerCase _ FHandle), get_ProfileSchema.
    by rewrite optionalText_sent.
  - intros f Hf.
    assert (Hl : buildPayload toLowerCase (ProfileSchema (form p)) !! fieldName f
                 = optionalText (get f (form p))).
    { rewrite buildPayload_lookup, get_ProfileSchema, optionalText_sent.
      destruct f; try done; by destruct (optionalText _). }
    split; [exact Hl|]. rewrite Hl.
    destruct (get f (form p)) as [s|]; simpl; [by destruct (trim s)|done].
Qed.

Lemma payload_partial_record_witness :
  buildPayload asciiToLowerCase (ProfileSchema (form typed)) !! "avatarUrl" = None ∧
  buildPayload asciiToLowerCase (ProfileSchema (form typed)) !! "handle"
    = Some (lit "jayk") ∧
  buildPayload asciiToLowerCase (ProfileSchema (form typed)) !! "displayName"
    = Some (lit "Jay K").
Proof.
  destruct (payload_partial_record asciiToLowerCase PatchFailed typed)
    as (_ & _ & He & Hh & Ho).
  split; [|split].
  - apply (He FAvatarUrl). left. reflexivity.
  - exact Hh.
  - exact (proj1 (Ho FDisplayName ltac:(discriminate))).
Defined.

(** C10: the schema trims every field before it tests it for
    emptiness: the parsed value of a field holding [s] is [trim s],
    or [undefined] when [trim s] is empty, and that is what the PATCH
    /api/me payload carries (lower-cased for the handle). So a field
    made of white space only is parsed to [undefined], has no key in
    the payload, and gives the payload the same form would give with
    that field empty; a field with anything else in it is sent as
    [trim s]. *)
Theorem whitespace_field_omitted (toLowerCase : jsstring → jsstring)
    (f : Field) (raw : Values) (s : jsstring) :
  get f raw = Some s →
  let payload := buildPayload toLowerCase (ProfileSchema raw) in
  get f (ProfileSchema raw) = (if bool_decide (trim s = []) then None else Some (trim s)) ∧
  payload !! fieldName f =
    (match f with FHandle => toLowerCase | _ => fun x => x end) <$> get f (ProfileSchema raw) ∧
  (forallb isWhiteSpace s = true →
     get f (ProfileSchema raw) = None ∧
     payload !! fieldName f = None ∧
     payload = buildPayload toLowerCase (ProfileSchema (set f (Some []) raw))) ∧
  (forallb isWhiteSpace s = false →
     trim s ≠ [] ∧
     get f (ProfileSchema raw) = Some (trim s) ∧
     payload !! fieldName f =
       Some (match f with FHandle => toLowerCase (trim s) | _ => trim s end)).
Proof.
  intros Hg. cbv zeta.
  assert (Hparsed : get f (ProfileSchema raw) =
                    (if bool_decide (trim s = []) then None else Some (trim s))).
  { rewrite get_ProfileSchema, Hg. simpl. by destruct (trim s). }
  assert (Hlook : buildPayload toLowerCase (ProfileSchema raw) !! fieldName f =
                  (match f with FHandle => toLowerCase | _ => fun x => x end)
                    <$> get f (ProfileSchema raw)).
  { rewrite buildPayload_lookup. f_equal.
    rewrite get_ProfileSchema. apply optionalText_sent. }
  split; [exact Hparsed|]. split; [exact Hlook|]. split.
  - intros Hs.
    assert (Hn : get f (ProfileSchema raw) = None).
    { rewrite get_ProfileSchema, Hg. by apply optionalText_blank. }
    split; [exact Hn|]. split.
    + rewrite Hlook, Hn. by destruct f.
    + by rewrite (ProfileSchema_set_blank f raw s Hg Hs).
  - intros Hs.
    assert (Hne : trim s ≠ []).
    { intros Ht. apply trim_nil_iff in Ht. congruence. }
    assert (Hsome : get f (ProfileSchema raw) = Some (trim s)).
    { rewrite Hparsed. by rewrite bool_decide_eq_false_2. }
    split; [exact Hne|]. split; [exact Hsome|].
    rewrite Hlook, Hsome. by destruct f.
Qed.

Lemma whitespace_field_omitted_witness :
  (get FBio typedValues = Some [0x20; 0x09; 0xA0; 0x3000] ∧
   buildPayload asciiToLowerCase (ProfileSchema typedValues) !! "bio" = None ∧
   buildPayload asciiToLowerCase (ProfileSchema typedValues) =
     buildPayload asciiToLowerCase (ProfileSchema (set FBio (Some []) typedValues))) ∧
  (get FDisplayName typedValues = Some (lit "  Jay K ") ∧
   get FDisplayName (ProfileSchema typedValues) = Some (lit "Jay K") ∧
   buildPayload asciiToLowerCase (ProfileSchema typedValues) !! "displayName"
     = Some (lit "Jay K")) ∧
  (get FHandle typedValues = Some (lit " JayK") ∧
   buildPayload asciiToLowerCase (ProfileSchema typedValues) !! "handle"
     = Some (lit "jayk")).
Proof.
  split; [|split].
  - split; [reflexivity|].
    destruct (whitespace_field_omitted asciiToLowerCase FBio typedValues
                [0x20; 0x09; 0xA0; 0x3000] eq_refl) as (_ & _ & Hblank & _).
    destruct (Hblank eq_refl) as (_ & Hk & He).
    exact (conj Hk He).
  - split; [reflexivity|].
    destruct (whitespace_field_omitted asciiToLowerCase FDisplayName typedValues
                (lit "  Jay K ") eq_refl) as (_ & _ & _ & Hfull).
    destruct (Hfull eq_refl) as (_ & Hp & Hk).
    exact (conj Hp Hk).
  - split; [reflexivity|].
    destruct (whitespace_field_omitted asciiToLowerCase FHandle typedValues
                (lit " JayK") eq_refl) as (_ & _ & _ & Hfull).
    destruct (Hfull eq_refl) as (_ & _ & Hk).
    exact Hk.
Defined.

(** C8 as stated fails: the user submits the typed form and the request
    fails; the page shows no notice at all, the only output of the
    submission being the request itself. *)
Lemma failed_update_shows_no_notice :
  notices typed = [] ∧
  notices (handleSubmit asciiToLowerCase PatchFailed typed) = [] ∧
  length (out (handleSubmit asciiToLowerCase PatchFailed typed)) = 1%nat.
Proof. repeat split. Qed.

(** C8, amended: when a profile update fails the error is dropped: no
    notice is shown to the user; the values the user entered stay in
    the form and the saving flag is lowered again, so the user can
    retry. *)
Theorem failed_update_keeps_form (toLowerCase : jsstring → jsstring) (p : Page) :
  let p' := handleSubmit toLowerCase PatchFailed p in
  notices p' = notices p ∧
  form p' = form p ∧
  isSaving p' = false ∧
  out p' = out p ++ [Patch "/api/me" (buildPayload toLowerCase (ProfileSchema (form p)))].
Proof.
  cbv zeta. unfold handleSubmit, onSubmit, onSubmitEnd, onSubmitBegin, notices. simpl.
  rewrite omap_app. simpl. by rewrite app_nil_r.
Qed.

End Submission.

End ProfileFacts.

(** * Further properties of the navbar *)

Module NavbarMore.
Import Navbar NavbarView NavbarFacts.

Section Delivery.

(** A delivery only appends toasts to the outputs and only raises the
    counter. *)
Lemma fold_handlers_out (s : nat) payload (ls : list (nat * nat)) w :
  let w' := fold_left (fun w l => if bool_decide (l.1 = s)
                                  then handleNewNotification payload w else w) ls w in
  (∃ ts, out w' = out w ++ (Toasted <$> ts)) ∧
  unreadCount (count w) ≤ unreadCount (count w').
Proof.
  revert w. induction ls as [|l ls IH]; intros w; simpl.
  - split; [exists []; by rewrite app_nil_r|lia].
  - destruct (bool_decide (l.1 = s)); [|apply IH].
    destruct (IH (handleNewNotification payload w)) as [[ts Hts] Hc].
    split.
    + eexists (_ :: ts). rewrite Hts. simpl. by rewrite <- app_assoc.
    + simpl in Hc. lia.
Qed.

Lemma deliver_out s payload w :
  (∃ ts, out (deliver s payload w) = out w ++ (Toasted <$> ts)) ∧
  unreadCount (count w) ≤ unreadCount (count (deliver s payload w)).
Proof. apply fold_handlers_out. Qed.

Lemma fetches_app_toasts (l : list Output) ts :
  omap (fun o => match o with Fetch r u => Some (r, u) | _ => None end)
       (l ++ (Toasted <$> ts)) =
  omap (fun o => match o with Fetch r u => Some (r, u) | _ => None end) l.
Proof.
  rewrite omap_app. induction ts as [|t ts IH]; simpl; [by rewrite app_nil_r|exact IH].
Qed.

Lemma sockOns_app_toasts (l : list Output) ts :
  omap (fun o => match o with SockOn s h => Some (s, h) | _ => None end)
       (l ++ (Toasted <$> ts)) =
  omap (fun o => match o with SockOn s h => Some (s, h) | _ => None end) l.
Proof.
  rewrite omap_app. induction ts as [|t ts IH]; simpl; [by rewrite app_nil_r|exact IH].
Qed.

Lemma sockOffs_app_toasts (l : list Output) ts :
  omap (fun o => match o with SockOff s h => Some (s, h) | _ => None end)
       (l ++ (Toasted <$> ts)) =
  omap (fun o => match o with SockOff s h => Some (s, h) | _ => None end) l.
Proof.
  rewrite omap_app. induction ts as [|t ts IH]; simpl; [by rewrite app_nil_r|exact IH].
Qed.

End Delivery.

Section Counter.

Lemma exec_cons e es w : exec (e :: es) w = exec es (step e w).
Proof. reflexivity. Qed.

Lemma step_count_nonneg e w :
  0 ≤ unreadCount (count w) → 0 ≤ unreadCount (count (step e w)).
Proof.
  intros H. destruct e; simpl.
  - destruct (mounted w); [done|]. unfold socketEffect, seedEffect. simpl.
    destruct (truthy u); simpl; by destruct s.
  - destruct (mounted w && _); [|done]. unfold seedEffect. simpl.
    by destruct (truthy u).
  - destruct (mounted w && _); [|done]. unfold socketEffect, socketCleanup. simpl.
    destruct (unsubscribe w); by destruct s.
  - destruct (mounted w); [|done]. unfold socketEffect, socketCleanup.
    destruct (unsubscribe w); simpl; by destruct (socket w).
  - unfold seedResolved. destruct (seeds w !! run) as [sr|]; [|done].
    destruct (fetch sr) as [[]|]; try done.
    destruct (isMounted sr); simpl; [lia|done].
  - unfold seedRejected. destruct (seeds w !! run) as [sr|]; [|done].
    destruct (fetch sr) as [[]|]; try done.
    by destruct (isMounted sr).
  - destruct (deliver_out s payload w) as [_ Hc]. lia.
  - destruct (mounted w); [|done]. unfold socketCleanup.
    by destruct (unsubscribe w).
Qed.

(** X1: the counter is never negative in a reachable state, so the bell
    always shows the counter itself; the [> 0] test of the badge never
    changes what is shown. *)
Theorem badge_shows_count (w : World) (mobileMenuOpen : bool) :
  reachable w →
  0 ≤ unreadCount (count w) ∧
  bell (renderV2 w mobileMenuOpen) = unreadCount (count w).
Proof.
  intros Hw.
  assert (H0 : 0 ≤ unreadCount (count w)).
  { induction Hw as [|e w _ IH]; [done|by apply step_count_nonneg]. }
  split; [exact H0|]. unfold renderV2, render, badge. simpl.
  destruct (unreadCount (count w) >? 0) eqn:Hgt; [done|]. lia.
Qed.

Lemma badge_shows_count_witness :
  let w := exec [Mount u1 (Some 0%nat); FetchResolved 0 (unread 3);
                 Push 0%nat (likeFrom None); AuthChanged UidNull] init in
  0 ≤ unreadCount (count w) ∧ bell (renderV2 w true) = unreadCount (count w).
Proof.
  apply badge_shows_count. apply exec_reachable. constructor.
Defined.

(** A negative counter, which no run of the component produces, would
    be shown as 0. *)
Example badge_negative : badge (-3) = 0 ∧ badge 0 = 0 ∧ badge 12 = 12.
Proof. done. Qed.

(** X2: push events delivered one after the other on the component's
    socket add up: after n of them the counter has grown by n and the
    n toasts have been shown in the order of arrival. *)
Theorem pushes_add_up (w : World) (s : nat) (payloads : list Notification) :
  reachable w → mounted w = true → socket w = Some s →
  let w' := exec (Push s <$> payloads) w in
  unreadCount (count w') = unreadCount (count w) + Z.of_nat (length payloads) ∧
  toasts w' =
    toasts w ++
    ((fun p => {| title := "New Notification"; description := toastDescription p |})
       <$> payloads).
Proof.
  revert w. induction payloads as [|p ps IH]; intros w Hw Hm Hs.
  - simpl. split; [lia|by rewrite app_nil_r].
  - pose proof (push_runs_handler_once w s p Hw Hm Hs) as Hp.
    cbv zeta. rewrite fmap_cons, exec_cons.
    destruct (IH (step (Push s p) w)) as [Hc Ht].
    + by constructor.
    + by rewrite Hp.
    + by rewrite Hp.
    + cbv zeta in Hc, Ht. rewrite Hc, Ht, Hp. split.
      * rewrite length_cons. simpl. lia.
      * rewrite toasts_handle. by rewrite <- app_assoc.
Qed.

Lemma pushes_add_up_witness :
  let w := exec [Mount u1 (Some 0%nat); FetchResolved 0 (unread 3)] init in
  let w' := exec (Push 0%nat <$> [replyFrom (Some (lit "jay")); likeFrom None;
                                   likeFrom (Some [])]) w in
  unreadCount (count w') = 6 ∧
  description <$> toasts w' =
    [lit "jay commented to your thread"; lit "Someone liked your thread";
     lit " liked your thread"].
Proof.
  destruct (pushes_add_up
              (exec [Mount u1 (Some 0%nat); FetchResolved 0 (unread 3)] init) 0%nat
              [replyFrom (Some (lit "jay")); likeFrom None; likeFrom (Some [])])
    as [Hc Ht].
  - apply exec_reachable. constructor.
  - reflexivity.
  - reflexivity.
  - split; [exact Hc|]. cbv zeta in Ht. rewrite Ht. reflexivity.
Defined.

End Counter.

Section Requests.

Lemma seed_failure_keeps_count_aux w run :
  reachable w → inFlight w run →
  count (step (FetchRejected run) w) = count w ∧
  out (step (FetchRejected run) w) = out w ++ [Logged (LogText "Error ocuured")].
Proof.
  intros Hw (sr & Hsr & Hf).
  by rewrite (rejected_logs w run sr (reachable_armed w Hw) Hsr Hf).
Qed.

(** X3: whenever a notifications request that is still in flight
    resolves, its result is applied: the counter becomes the length of
    the data and the data goes to the console, whether or not a newer
    request has been issued and whatever the session is by then; the
    run is settled afterwards. *)
Theorem late_result_is_applied (w : World) (run : nat) (data : list Notification) :
  reachable w → inFlight w run →
  let w' := step (FetchResolved run data) w in
  unreadCount (count w') = Z.of_nat (length data) ∧
  out w' = out w ++ [Logged (LogData data)] ∧
  userId w' = userId w ∧
  ¬ inFlight w' run ∧
  step (FetchResolved run data) w' = w'.
Proof.
  intros Hw (sr & Hsr & Hf). cbv zeta.
  rewrite (resolved_applies w run sr data (reachable_armed w Hw) Hsr Hf).
  assert (Hlook : seeds (with_count (setUnreadCount (Z.of_nat (length data)))
                    (emit (Logged (LogData data)) (settle run sr w))) !! run
                  = Some {| isMounted := isMounted sr; seedUser := seedUser sr;
                            fetch := Some Settled |}).
  { simpl. apply list_lookup_insert_eq. by apply lookup_lt_Some in Hsr. }
  repeat split.
  - intros (sr' & Hsr' & Hf'). rewrite Hlook in Hsr'. by simplify_eq.
  - simpl. unfold seedResolved. by rewrite Hlook.
Qed.

Lemma late_result_is_applied_witness :
  let w := exec [Mount u1 None; AuthChanged UidNull; Unmount] init in
  let w' := step (FetchResolved 0 (unread 4)) w in
  truthy (userId w) = false ∧ unreadCount (count w) = 0 ∧
  unreadCount (count w') = 4.
Proof.
  split; [reflexivity|]. split; [reflexivity|].
  apply (late_result_is_applied
           (exec [Mount u1 None; AuthChanged UidNull; Unmount] init) 0 (unread 4)).
  - apply exec_reachable. constructor.
  - eexists. split; reflexivity.
Defined.

Lemma fetches_deliver s payload w : fetches (deliver s payload w) = fetches w.
Proof.
  destruct (deliver_out s payload w) as [[ts Hts] _].
  unfold fetches. rewrite Hts. apply fetches_app_toasts.
Qed.

Lemma fetches_seedEffect w :
  fetches (seedEffect w) =
    fetches w ++ (if truthy (userId w) then [(length (seeds w), notificationsUrl)] else []).
Proof.
  unfold seedEffect, fetches. destruct (truthy (userId w)); simpl.
  - by rewrite omap_app.
  - by rewrite app_nil_r.
Qed.

Lemma fetches_socketEffect w : fetches (socketEffect w) = fetches w.
Proof.
  unfold socketEffect, fetches. destruct (socket w); simpl; [|done].
  rewrite omap_app. simpl. by rewrite app_nil_r.
Qed.

Lemma fetches_socketCleanup w : fetches (socketCleanup w) = fetches w.
Proof.
  unfold socketCleanup, fetches. destruct (unsubscribe w); simpl; [|done].
  rewrite omap_app. simpl. by rewrite app_nil_r.
Qed.

(** X4: the notifications request is sent when the component mounts
    with a session and when [userId] changes to a different non-empty
    value, once each time and always to the same URL; no other event
    sends it: not a new socket, not a push event, not the completion of
    an earlier request. *)
Theorem fetch_only_on_session (e : Event) (w : World) :
  fetches (step e w) =
    fetches w ++
    (if seeds_on e w then [(length (seeds w), notificationsUrl)] else []).
Proof.
  destruct e; simpl.
  - destruct (mounted w); simpl; [by rewrite app_nil_r|].
    by rewrite fetches_socketEffect, fetches_seedEffect.
  - destruct (mounted w); simpl; [|by rewrite app_nil_r].
    destruct (bool_decide (u = userId w)); simpl; [by rewrite app_nil_r|].
    by rewrite fetches_seedEffect.
  - rewrite app_nil_r. destruct (mounted w && _); [|done].
    by rewrite fetches_socketEffect, fetches_socketCleanup.
  - rewrite app_nil_r. destruct (mounted w); [|done].
    by rewrite fetches_socketEffect, fetches_socketCleanup.
  - rewrite app_nil_r. unfold seedResolved.
    destruct (seeds w !! run) as [sr|]; [|done].
    destruct (fetch sr) as [[]|]; try done.
    destruct (isMounted sr); simpl; [|done].
    unfold fetches. simpl. rewrite omap_app. simpl. by rewrite app_nil_r.
  - rewrite app_nil_r. unfold seedRejected.
    destruct (seeds w !! run) as [sr|]; [|done].
    destruct (fetch sr) as [[]|]; try done.
    destruct (isMounted sr); simpl; [|done].
    unfold fetches. simpl. rewrite omap_app. simpl. by rewrite app_nil_r.
  - rewrite app_nil_r. apply fetches_deliver.
  - rewrite app_nil_r. destruct (mounted w); [|done]. simpl.
    apply fetches_socketCleanup.
Qed.

(** X5: a change from one signed-in identity to another does not reset
    the counter. It keeps the value it had for the previous identity
    while the new request is in flight, and for good if that request
    fails. *)
Theorem switching_user_keeps_count (w : World) (u : UserId) :
  reachable w → mounted w = true → truthy u = true → u ≠ userId w →
  let w1 := step (AuthChanged u) w in
  userId w1 = u ∧
  count w1 = count w ∧
  inFlight w1 (length (seeds w)) ∧
  count (step (FetchRejected (length (seeds w))) w1) = count w.
Proof.
  intros Hw Hm Hu Hne. cbv zeta.
  assert (Hstep : step (AuthChanged u) w =
            emit (Fetch (length (seeds w)) notificationsUrl)
              (with_seeds (seeds w ++ [{| isMounted := true; seedUser := u;
                                          fetch := Some InFlight |}])
                 (with_props true u (socket w) w))).
  { simpl. rewrite Hm. rewrite bool_decide_eq_false_2 by done. simpl.
    unfold seedEffect. simpl. by rewrite Hu. }
  assert (Hin : inFlight (step (AuthChanged u) w) (length (seeds w))).
  { rewrite Hstep. eexists. split.
    - simpl. rewrite lookup_app_r by done. by rewrite Nat.sub_diag.
    - reflexivity. }
  split; [by rewrite Hstep|]. split; [by rewrite Hstep|]. split; [exact Hin|].
  destruct (seed_failure_keeps_count_aux (step (AuthChanged u) w) (length (seeds w)))
    as [Hc _]; [by constructor|exact Hin|].
  rewrite Hc. by rewrite Hstep.
Qed.

Lemma switching_user_keeps_count_witness :
  let w := exec [Mount u1 None; FetchResolved 0 (unread 3)] init in
  let w1 := step (AuthChanged u2) w in
  userId w1 = u2 ∧ unreadCount (count w1) = 3 ∧
  unreadCount (count (step (FetchRejected 1) w1)) = 3.
Proof.
  destruct (switching_user_keeps_count
              (exec [Mount u1 None; FetchResolved 0 (unread 3)] init) u2)
    as (Hu & Hc & _ & Hr).
  - apply exec_reachable. constructor.
  - reflexivity.
  - reflexivity.
  - discriminate.
  - split; [exact Hu|]. split.
    + exact (f_equal unreadCount Hc).
    + exact (f_equal unreadCount Hr).
Defined.

End Requests.

Section Listeners.

Lemma calls_seedEffect w :
  sockOns (seedEffect w) = sockOns w ∧ sockOffs (seedEffect w) = sockOffs w ∧
  listeners (seedEffect w) = listeners w.
Proof.
  unfold seedEffect, sockOns, sockOffs. destruct (truthy (userId w)); simpl; [|done].
  rewrite !omap_app. simpl. by rewrite !app_nil_r.
Qed.

Lemma calls_socketEffect w :
  listeners w = [] →
  sockOns (socketEffect w) = sockOns w ++ listeners (socketEffect w) ∧
  sockOffs (socketEffect w) = sockOffs w.
Proof.
  intros Hl. unfold socketEffect, sockOns, sockOffs.
  destruct (socket w); simpl; rewrite Hl; [|by rewrite app_nil_r].
  rewrite !omap_app. simpl. by rewrite app_nil_r.
Qed.

Lemma calls_socketCleanup w :
  listeners w = option_list (unsubscribe w) →
  sockOns (socketCleanup w) = sockOns w ∧
  sockOffs (socketCleanup w) = sockOffs w ++ listeners w ∧
  listeners (socketCleanup w) = [].
Proof.
  intros Hl. unfold socketCleanup, sockOns, sockOffs.
  destruct (unsubscribe w) as [[s h]|]; simpl in *; rewrite Hl.
  - rewrite !omap_app. simpl. rewrite app_nil_r.
    by rewrite bool_decide_eq_true_2.
  - by rewrite app_nil_r.
Qed.

Lemma step_calls e w :
  subscribed w → sockOns w = sockOffs w ++ listeners w →
  sockOns (step e w) = sockOffs (step e w) ++ listeners (step e w).
Proof.
  intros Hsub Hb. destruct e; simpl.
  - destruct (mounted w) eqn:Hm; [done|].
    destruct Hsub as [Hl Hu]. rewrite Hm in Hu. rewrite Hu in Hl. simpl in Hl.
    set (w0 := with_props true u s w).
    destruct (calls_seedEffect w0) as (Hon & Hoff & Hls).
    destruct (calls_socketEffect (seedEffect w0)) as [Hon' Hoff'].
    { by rewrite Hls. }
    rewrite Hon', Hoff', Hon, Hoff.
    change (sockOns w0) with (sockOns w). change (sockOffs w0) with (sockOffs w).
    rewrite Hb, Hl. by rewrite app_nil_r.
  - destruct (mounted w && _); [|done].
    set (w0 := with_props true u (socket w) w).
    destruct (calls_seedEffect w0) as (-> & -> & ->). exact Hb.
  - destruct (mounted w && _); [|done].
    set (w0 := with_props true (userId w) s w).
    destruct (calls_socketCleanup w0 (proj1 Hsub)) as (Hon & Hoff & Hls).
    destruct (calls_socketEffect (socketCleanup w0) Hls) as [Hon' Hoff'].
    rewrite Hon', Hoff', Hon, Hoff.
    change (sockOns w0) with (sockOns w). change (sockOffs w0) with (sockOffs w).
    change (listeners w0) with (listeners w). by rewrite Hb.
  - destruct (mounted w); [|done].
    destruct (calls_socketCleanup w (proj1 Hsub)) as (Hon & Hoff & Hls).
    destruct (calls_socketEffect (socketCleanup w) Hls) as [Hon' Hoff'].
    rewrite Hon', Hoff', Hon, Hoff. by rewrite Hb.
  - unfold seedResolved. destruct (seeds w !! run) as [sr|]; [|done].
    destruct (fetch sr) as [[]|]; try done.
    destruct (isMounted sr); simpl; [|done].
    unfold sockOns, sockOffs in *. simpl. rewrite !omap_app. simpl.
    by rewrite !app_nil_r.
  - unfold seedRejected. destruct (seeds w !! run) as [sr|]; [|done].
    destruct (fetch sr) as [[]|]; try done.
    destruct (isMounted sr); simpl; [|done].
    unfold sockOns, sockOffs in *. simpl. rewrite !omap_app. simpl.
    by rewrite !app_nil_r.
  - destruct (deliver_out s payload w) as [[ts Hts] _].
    destruct (deliver_wiring s payload w) as (_ & _ & _ & _ & Hl & _).
    unfold sockOns, sockOffs in *. rewrite Hts, Hl.
    by rewrite sockOns_app_toasts, sockOffs_app_toasts.
  - destruct (mounted w); [|done].
    destruct (calls_socketCleanup w (proj1 Hsub)) as (Hon & Hoff & Hls).
    change (sockOns (with_props false (userId w) (socket w) (socketCleanup w)))
      with (sockOns (socketCleanup w)).
    change (sockOffs (with_props false (userId w) (socket w) (socketCleanup w)))
      with (sockOffs (socketCleanup w)).
    change (listeners (with_props false (userId w) (socket w) (socketCleanup w)))
      with (listeners (socketCleanup w)).
    rewrite Hon, Hoff, Hls, Hb. by rewrite app_nil_r.
Qed.

(** X6: listeners do not leak. In every reachable state the handlers
    passed to [socket.on] so far are, in order, the ones already passed
    to [socket.off] followed by the live one, if any; once the component
    is unmounted every handler it registered has been removed. *)
Theorem listeners_do_not_leak (w : World) :
  reachable w →
  sockOns w = sockOffs w ++ listeners w ∧
  sockOns (step Unmount w) = sockOffs (step Unmount w).
Proof.
  intros Hw.
  assert (Hb : ∀ w, reachable w → sockOns w = sockOffs w ++ listeners w).
  { clear w Hw. intros w Hw. induction Hw as [|e w Hw IH]; [done|].
    apply step_calls; [by apply reachable_subscribed|exact IH]. }
  split; [by apply Hb|].
  pose proof (Hb _ (reachable_step Unmount w Hw)) as Hu.
  pose proof (reachable_listeners _ (reachable_step Unmount w Hw)) as Hl.
  assert (Hm : mounted (step Unmount w) = false).
  { simpl. by destruct (mounted w) eqn:Hm. }
  rewrite Hm in Hl. rewrite Hl in Hu. by rewrite app_nil_r in Hu.
Qed.

Lemma listeners_do_not_leak_witness :
  let w := exec [Mount u1 (Some 0%nat); IncrementChanged; SocketChanged None;
                 SocketChanged (Some 4%nat)] init in
  sockOns w = [(0, 0); (0, 1); (4, 2)]%nat ∧
  sockOns w = sockOffs w ++ listeners w ∧
  sockOns (step Unmount w) = sockOffs (step Unmount w).
Proof.
  split; [reflexivity|].
  apply listeners_do_not_leak. apply exec_reachable. constructor.
Defined.

(** X7: a handler that was removed stays silent. After the component
    is torn down a push event on any socket changes nothing, and after
    the socket was replaced a push event on the previous socket changes
    nothing: no increment, no toast. *)
Theorem removed_handler_is_silent (w : World) (s : nat) (payload : Notification) :
  reachable w →
  step (Push s payload) (step Unmount w) = step Unmount w ∧
  (∀ s', mounted w = true → s' ≠ Some s →
     step (Push s payload) (step (SocketChanged s') w) = step (SocketChanged s') w).
Proof.
  intros Hw. split.
  - apply push_elsewhere_ignored; [by constructor|left].
    simpl. by destruct (mounted w) eqn:Hm.
  - intros s' Hm Hne. apply push_elsewhere_ignored; [by constructor|right].
    simpl. rewrite Hm. simpl.
    destruct (bool_decide (s' = socket w)) eqn:Hd; simpl.
    + apply bool_decide_eq_true in Hd. by rewrite <- Hd.
    + unfold socketEffect, socketCleanup. simpl.
      destruct (unsubscribe w); by destruct s'.
Qed.

Lemma removed_handler_is_silent_witness :
  let w := exec [Mount u1 (Some 0%nat); FetchResolved 0 (unread 3)] init in
  unreadCount (count (step (Push 0%nat (likeFrom None)) w)) = 4 ∧
  step (Push 0%nat (likeFrom None)) (step Unmount w) = step Unmount w ∧
  step (Push 0%nat (likeFrom None)) (step (SocketChanged (Some 1%nat)) w)
    = step (SocketChanged (Some 1%nat)) w.
Proof.
  split; [reflexivity|].
  destruct (removed_handler_is_silent
              (exec [Mount u1 (Some 0%nat); FetchResolved 0 (unread 3)] init)
              0%nat (likeFrom None)) as [Hu Hs].
  - apply exec_reachable. constructor.
  - split; [exact Hu|]. apply Hs; [reflexivity|discriminate].
Defined.

End Listeners.

Section Rendering.

(** [startsWith] holds exactly of the strings that extend the search
    string. *)
Lemma startsWith_spec s p : startsWith s p = true ↔ ∃ t, s = p ++ t.
Proof.
  revert s. induction p as [|c p IH]; intros s; simpl.
  - split; [intros _; by exists s|done].
  - destruct s as [|d s]; simpl.
    + split; [done|]. by intros [t Ht].
    + rewrite andb_true_iff, Z.eqb_eq, IH. split.
      * intros [-> [t ->]]. by exists t.
      * intros [t Ht]. simplify_eq. split; [done|by exists t].
Qed.

(** X8: the [match] of a nav item recognises the paths that begin with
    the item's [href] without its leading slash. It is [undefined] for
    a missing path, and it rejects the item's own [href], like every
    other path that begins with a slash. *)
Theorem match_ignores_leading_slash (item : NavItem) (p : option jsstring) :
  item ∈ navItems →
  (matches item p = Some true ↔ ∃ t, p = Some (drop 1 (href item) ++ t)) ∧
  matches item None = None ∧
  matches item (Some (href item)) = Some false ∧
  (∀ t, matches item (Some (lit "/" ++ t)) = Some false).
Proof.
  intros Hin.
  assert (Hcases : item ∈ navItems → ∃ name,
            href item = lit "/" ++ name ∧ (∃ c r, name = c :: r ∧ c ≠ 0x2F) ∧
            ∀ q, matches item q = (fun s => startsWith s name) <$> q).
  { unfold navItems. rewrite !elem_of_cons, elem_of_nil.
    intros [-> | [-> | []]].
    - exists (lit "chat"). split; [reflexivity|]. split; [|done].
      eexists _, _. split; [reflexivity|done].
    - exists (lit "profile"). split; [reflexivity|]. split; [|done].
      eexists _, _. split; [reflexivity|done]. }
  destruct (Hcases Hin) as (name & Hh & (c & r & -> & Hc) & Hm).
  rewrite !Hm, Hh.
  assert (Hslash : ∀ t, startsWith (lit "/" ++ t) (c :: r) = false).
  { intros t. change (lit "/" ++ t) with (0x2F :: t). cbn [startsWith].
    apply andb_false_iff. left. apply Z.eqb_neq. congruence. }
  split; [|split; [done|split]].
  - change (drop 1 (lit "/" ++ c :: r)) with (c :: r).
    destruct p as [s|].
    + split.
      * intros Hs. change (Some (startsWith s (c :: r)) = Some true) in Hs.
        assert (Hs' : startsWith s (c :: r) = true) by congruence.
        apply startsWith_spec in Hs' as [t ->]. by exists t.
      * intros [t Ht]. assert (Hs : s = (c :: r) ++ t) by congruence.
        change (Some (startsWith s (c :: r)) = Some true). f_equal.
        apply startsWith_spec. by exists t.
    + split; [done|]. by intros [t Ht].
  - change (Some (startsWith (lit "/" ++ c :: r) (c :: r)) = Some false).
    f_equal. apply Hslash.
  - intros t. rewrite Hm.
    change (Some (startsWith (lit "/" ++ t) (c :: r)) = Some false).
    f_equal. apply Hslash.
Qed.

Lemma match_ignores_leading_slash_witness :
  let chat := {| href := lit "/chat"; label := lit "Chat";
                 matches := fun p => (fun s => startsWith s (lit "chat")) <$> p |} in
  matches chat (Some (lit "chat/42")) = Some true ∧
  matches chat (Some (lit "/chat")) = Some false.
Proof.
  destruct (match_ignores_leading_slash
              {| href := lit "/chat"; label := lit "Chat";
                 matches := fun p => (fun s => startsWith s (lit "chat")) <$> p |}
              (Some (lit "chat/42"))) as (Hiff & _ & Hown & _).
  - unfold navItems. apply elem_of_cons. by left.
  - split; [|exact Hown]. apply Hiff. by exists (lit "/42").
Defined.

Lemma iter_clickMenu n :
  Nat.iter n clickMenu initV1 = {| unReadCount := 0; mobileMenuOpen := Nat.odd n |}.
Proof.
  induction n as [|n IH]; [done|].
  rewrite Nat.iter_succ, IH. unfold clickMenu. simpl unReadCount. simpl mobileMenuOpen.
  f_equal. rewrite Nat.odd_succ. by rewrite <- Nat.negb_odd.
Qed.

(** X9: in the first version of [Navbar] the menu button is the only
    thing that changes state: after n clicks the mobile menu is open
    exactly when n is odd, with the close icon and the same links as
    the desktop bar, and the bell shows 0 whatever happens. *)
Theorem menu_toggles_bell_stays (n : nat) :
  let h := renderV1 (Nat.iter n clickMenu initV1) in
  bell h = 0 ∧
  menuIcon h = (if Nat.odd n then XIcon else MenuIcon) ∧
  mobileNav h = (if Nat.odd n then Some (desktopNav h) else None) ∧
  to <$> desktopNav h = href <$> navItems.
Proof.
  cbv zeta. rewrite iter_clickMenu. unfold renderV1, render. simpl.
  by destruct (Nat.odd n).
Qed.

End Rendering.

End NavbarMore.

(** * Further properties of the profile page *)

Module ProfileMore.
Import Profile ProfilePage ProfileFacts.

Section Trimming.

Lemma trimStart_split s :
  ∃ pre, s = pre ++ trimStart s ∧ forallb isWhiteSpace pre = true.
Proof.
  induction s as [|c s (pre & Hs & Hpre)]; simpl.
  - by exists [].
  - destruct (isWhiteSpace c) eqn:Hc.
    + exists (c :: pre). simpl. rewrite Hc, Hpre. split; [by f_equal|done].
    + by exists [].
Qed.

Lemma trimStart_fix s :
  match s with [] => True | c :: _ => isWhiteSpace c = false end → trimStart s = s.
Proof. destruct s as [|c s]; simpl; [done|]. by intros ->. Qed.

Lemma trimEnd_split s :
  ∃ post, s = trimEnd s ++ post ∧ forallb isWhiteSpace post = true.
Proof.
  unfold trimEnd. destruct (trimStart_split (rev s)) as (pre & Hs & Hpre).
  exists (rev pre). split.
  - rewrite <- rev_app_distr, <- Hs. by rewrite rev_involutive.
  - by rewrite forallb_rev.
Qed.

Lemma last_rev_head (s : jsstring) : last (rev s) = head s.
Proof.
  destruct s as [|c s]; simpl; [done|]. by rewrite last_snoc.
Qed.

Lemma trimEnd_last s :
  match last (trimEnd s) with None => True | Some c => isWhiteSpace c = false end.
Proof.
  unfold trimEnd. rewrite last_rev_head.
  pose proof (trimStart_head (rev s)) as H. by destruct (trimStart (rev s)).
Qed.

(** [trim] cuts a white-space prefix and a white-space suffix off its
    argument, and what is left is tight. *)
Lemma trim_spec s :
  ∃ pre post, s = pre ++ trim s ++ post ∧
    forallb isWhiteSpace pre = true ∧ forallb isWhiteSpace post = true ∧
    tight (trim s).
Proof.
  destruct (trimStart_split s) as (pre & Hs & Hpre).
  destruct (trimEnd_split (trimStart s)) as (post & Hu & Hpost).
  exists pre, post. unfold trim. split; [|split; [done|split; [done|]]].
  - by rewrite <- Hu.
  - split; [|apply trimEnd_last].
    pose proof (trimStart_head s) as Hh. rewrite Hu in Hh.
    by destruct (trimEnd (trimStart s)).
Qed.

Lemma trim_tight s : tight s → trim s = s.
Proof.
  intros [Hh Hl]. unfold trim, trimEnd. rewrite (trimStart_fix s Hh).
  rewrite trimStart_fix; [apply rev_involutive|].
  rewrite <- (rev_involutive s) in Hl. rewrite last_rev_head in Hl.
  by destruct (rev s).
Qed.

Lemma trim_idemp s : trim (trim s) = trim s.
Proof.
  destruct (trim_spec s) as (_ & _ & _ & _ & _ & Ht). by apply trim_tight.
Qed.

Lemma optionalText_idemp v : optionalText (optionalText v) = optionalText v.
Proof.
  destruct v as [s|]; [|done]. simpl.
  destruct (trim s) as [|c t] eqn:Ht; [done|]. simpl.
  rewrite <- Ht, trim_idemp. by rewrite Ht.
Qed.

End Trimming.

Section Payloads.

(** X10: every value in the PATCH /api/me payload is the text of its
    form field without the white space around it: the field reads
    [pre ++ x ++ post] with [pre] and [post] white space, [x] is not
    empty and neither starts nor ends with white space, and the value
    sent is [x], put through [toLowerCase] for the handle. White space
    inside [x] is kept. *)
Theorem payload_values_are_tight (toLowerCase : jsstring → jsstring)
    (raw : Values) (f : Field) (v : jsstring) :
  buildPayload toLowerCase (ProfileSchema raw) !! fieldName f = Some v →
  ∃ pre x post,
    get f raw = Some (pre ++ x ++ post) ∧
    forallb isWhiteSpace pre = true ∧ forallb isWhiteSpace post = true ∧
    x ≠ [] ∧ tight x ∧
    v = match f with FHandle => toLowerCase x | _ => x end.
Proof.
  rewrite buildPayload_lookup, get_ProfileSchema, optionalText_sent.
  destruct (get f raw) as [s|]; simpl; [|by destruct f].
  destruct (trim_spec s) as (pre & post & Hs & Hpre & Hpost & Ht).
  destruct (trim s) as [|c t] eqn:Htrim; simpl; [by destruct f|].
  intros Hv. exists pre, (c :: t), post.
  split; [by rewrite <- Hs|]. do 4 (split; [done|]).
  destruct f; by simplify_eq.
Qed.

Lemma payload_values_are_tight_witness :
  ∃ pre x post,
    get FDisplayName typedValues = Some (pre ++ x ++ post) ∧
    forallb isWhiteSpace pre = true ∧ forallb isWhiteSpace post = true ∧
    x ≠ [] ∧ tight x ∧ lit "Jay K" = x.
Proof.
  apply (payload_values_are_tight asciiToLowerCase typedValues FDisplayName (lit "Jay K")).
  reflexivity.
Defined.

Lemma optionalText_None v :
  optionalText v = None ↔
  v = None ∨ ∃ s, v = Some s ∧ forallb isWhiteSpace s = true.
Proof.
  destruct v as [s|]; simpl.
  - pose proof (trim_nil_iff s) as Hiff. destruct (trim s) as [|c t]; split.
    + intros _. right. exists s. split; [done|]. by apply Hiff.
    + done.
    + done.
    + intros [|(s' & [= <-] & Hs)]; [done|]. apply Hiff in Hs. done.
  - split; [by left|done].
Qed.

(** X11: a key is in the PATCH /api/me payload exactly when its field
    holds something other than white space; hence the payload is the
    empty object exactly when every field is undefined, empty or
    blank, and the request is sent all the same. *)
Theorem key_present_iff_not_blank (toLowerCase : jsstring → jsstring)
    (r : PatchResult) (p : Page) :
  let payload := buildPayload toLowerCase (ProfileSchema (form p)) in
  (∀ f, is_Some (payload !! fieldName f) ↔
        ∃ s, get f (form p) = Some s ∧ forallb isWhiteSpace s = false) ∧
  (payload = ∅ ↔
     ∀ f, get f (form p) = None ∨
          ∃ s, get f (form p) = Some s ∧ forallb isWhiteSpace s = true) ∧
  length (patches (handleSubmit toLowerCase r p)) = S (length (patches p)).
Proof.
  cbv zeta.
  assert (Hkey : ∀ f, buildPayload toLowerCase (ProfileSchema (form p)) !! fieldName f = None
                      ↔ optionalText (get f (form p)) = None).
  { intros f. rewrite buildPayload_lookup, get_ProfileSchema, optionalText_sent.
    destruct (optionalText (get f (form p))); by destruct f. }
  split; [|split].
  - intros f. rewrite <- not_eq_None_Some, Hkey, optionalText_None. split.
    + intros Hn. destruct (get f (form p)) as [s|]; [|by destruct Hn; left].
      exists s. split; [done|]. apply not_true_is_false. intros Hs.
      apply Hn. right. by exists s.
    + intros (s & Hs & Hb) [Hnone|(s' & Hs' & Hb')]; [congruence|].
      rewrite Hs in Hs'. simplify_eq. congruence.
  - split.
    + intros He f. apply optionalText_None, Hkey. by rewrite He.
    + intros Hall. apply map_empty. intros k.
      destruct (buildPayload toLowerCase (ProfileSchema (form p)) !! k) as [v|] eqn:Hk;
        [|done].
      assert (Hd : k ∈ dom (buildPayload toLowerCase (ProfileSchema (form p)))).
      { apply elem_of_dom. by exists v. }
      apply buildPayload_dom in Hd.
      assert (Hf : ∃ f, k = fieldName f).
      { rewrite !elem_of_union, !elem_of_singleton in Hd.
        destruct Hd as [[[->| ->]| ->]| ->];
          [by exists FDisplayName|by exists FHandle|by exists FBio|by exists FAvatarUrl]. }
      destruct Hf as [f ->].
      assert (Hn : buildPayload toLowerCase (ProfileSchema (form p)) !! fieldName f = None).
      { apply Hkey, optionalText_None, Hall. }
      congruence.
  - rewrite patches_handleSubmit, length_app. simpl. lia.
Qed.

Lemma key_present_iff_not_blank_witness :
  is_Some (buildPayload asciiToLowerCase (ProfileSchema (form typed)) !! "handle") ∧
  buildPayload asciiToLowerCase (ProfileSchema (form initial)) = ∅.
Proof.
  split.
  - apply (proj1 (key_present_iff_not_blank asciiToLowerCase PatchFailed typed) FHandle).
    exists (lit " JayK"). split; reflexivity.
  - apply (proj1 (proj2 (key_present_iff_not_blank asciiToLowerCase PatchFailed initial))).
    intros f. right. exists []. by destruct f.
Defined.

(** X12: the schema is idempotent: parsing values that were already
    parsed changes nothing, so they give the same payload. *)
Theorem schema_is_idempotent (toLowerCase : jsstring → jsstring) (raw : Values) :
  ProfileSchema (ProfileSchema raw) = ProfileSchema raw ∧
  buildPayload toLowerCase (ProfileSchema (ProfileSchema raw)) =
    buildPayload toLowerCase (ProfileSchema raw).
Proof.
  assert (H : ProfileSchema (ProfileSchema raw) = ProfileSchema raw).
  { unfold ProfileSchema. simpl. by rewrite !optionalText_idemp. }
  by rewrite H.
Qed.

End Payloads.

Section HeaderCard.

(** X13: the header card shows the display name as typed, which is
    what will be sent only when it has no white space around it: for a
    non-empty value [s] the title is [s], while the payload carries
    [s] under displayName exactly when [trim s = s]. *)
Theorem card_shows_untrimmed_name (toLowerCase : jsstring → jsstring)
    (raw : Values) (s : jsstring) :
  displayName raw = Some s → s ≠ [] →
  cardTitle (card raw) = s ∧
  (buildPayload toLowerCase (ProfileSchema raw) !! "displayName" = Some s ↔ trim s = s).
Proof.
  intros Hd Hs. split.
  - unfold card, orElse. simpl. rewrite Hd. by destruct s.
  - rewrite (buildPayload_lookup toLowerCase _ FDisplayName), get_ProfileSchema,
      optionalText_sent. simpl. rewrite Hd. simpl.
    destruct (trim s) as [|c t] eqn:Ht; simpl.
    + split; [done|]. intros <-. done.
    + split; [by intros [= <-]|by intros <-].
Qed.

Lemma card_shows_untrimmed_name_witness :
  cardTitle (card typedValues) = lit "  Jay K " ∧
  buildPayload asciiToLowerCase (ProfileSchema typedValues) !! "displayName"
    ≠ Some (lit "  Jay K ").
Proof.
  destruct (card_shows_untrimmed_name asciiToLowerCase typedValues (lit "  Jay K "))
    as [Ht Hiff]; [reflexivity|discriminate|].
  split; [exact Ht|]. intros Heq. apply Hiff in Heq. discriminate Heq.
Defined.

(** X14: the avatar image is rendered exactly when the avatar field is
    a non-empty string, and its source is then that string: the
    fallback "/placeholder.svg" written in the JSX is never what is
    shown. *)
Theorem avatar_never_uses_placeholder (v : Values) :
  (∀ img, avatar (card v) = Some img →
          avatarUrl v = Some (src img) ∧ src img ≠ [] ∧
          alt img = default [] (displayName v)) ∧
  (avatar (card v) = None ↔ avatarUrl v = None ∨ avatarUrl v = Some []).
Proof.
  unfold card, orElse. simpl. destruct (avatarUrl v) as [[|c s]|]; simpl.
  - split; [done|]. split; [by right|done].
  - split.
    + intros img [= <-]. done.
    + split; [done|]. by intros [|].
  - split; [done|]. split; [by left|done].
Qed.

Lemma avatar_never_uses_placeholder_witness :
  avatarUrl (set FAvatarUrl (Some (lit "http://a/b.png")) typedValues)
    = Some (lit "http://a/b.png") ∧
  avatar (card typedValues) = None.
Proof.
  split.
  - apply (proj1 (avatar_never_uses_placeholder
                    (set FAvatarUrl (Some (lit "http://a/b.png")) typedValues))
             {| src := lit "http://a/b.png"; alt := lit "  Jay K " |}).
    reflexivity.
  - apply (proj2 (avatar_never_uses_placeholder typedValues)). by right.
Defined.

End HeaderCard.

Section Loading.

Variable toLowerCase : jsstring → jsstring.

Lemma step_loadsArmed e w : loadsArmed w → loadsArmed (step toLowerCase e w).
Proof.
  unfold loadsArmed. intros H. destruct e; simpl; try done.
  - apply Forall_app. split; [done|]. by constructor.
  - unfold loadResolved. destruct (loads w !! run) as [lr|] eqn:Hlr; [|done].
    destruct (status lr); [|done].
    assert (Ha : Forall (fun lr => isMounted lr = true)
                   (<[run := {| isMounted := isMounted lr; status := Loaded |}]> (loads w))).
    { apply Forall_insert; [done|]. simpl.
      rewrite Forall_lookup in H. exact (H run lr Hlr). }
    unfold finallyLoad, settleLoad. destruct (isMounted lr); exact Ha.
  - unfold loadRejected. destruct (loads w !! run) as [lr|] eqn:Hlr; [|done].
    destruct (status lr); [|done].
    assert (Ha : Forall (fun lr => isMounted lr = true)
                   (<[run := {| isMounted := isMounted lr; status := Loaded |}]> (loads w))).
    { apply Forall_insert; [done|]. simpl.
      rewrite Forall_lookup in H. exact (H run lr Hlr). }
    unfold finallyLoad, settleLoad. destruct (isMounted lr); exact Ha.
  - by destruct (saves w).
Qed.

(** No closure of [loadProfile] ever has its [isMounted] cleared. *)
Lemma reachable_loadsArmed w : reachable toLowerCase w → loadsArmed w.
Proof.
  induction 1 as [|e w _ IH]; [by constructor|by apply step_loadsArmed].
Qed.

Lemma page_exec_reachable es w :
  reachable toLowerCase w → reachable toLowerCase (exec toLowerCase es w).
Proof.
  revert w. induction es as [|e es IH]; intros w Hw; simpl; [done|].
  apply IH. by constructor.
Qed.

End Loading.

(** X15: when a profile request that is in flight resolves, the form
    is replaced by the record received, with [null] fields as empty
    strings, whatever the user had typed or saved meanwhile; the
    loading flag is lowered, the record is logged, and nothing is sent
    or toasted. *)
Theorem load_replaces_form (toLowerCase : jsstring → jsstring)
    (w : PageWorld) (run : nat) (getUserInfo : UserResponse) :
  reachable toLowerCase w → loading w run →
  let w' := step toLowerCase (LoadResolved run getUserInfo) w in
  (∀ f, get f (form (page w')) = Some (default [] (respField f getUserInfo))) ∧
  isLoading (page w') = false ∧
  isSaving (page w') = isSaving (page w) ∧
  out (page w') = out (page w) ∧
  console w' = console w ++ [LogUser getUserInfo "getUserInfo"] ∧
  ¬ loading w' run.
Proof.
  intros Hw (lr & Hlr & Hst). cbv zeta. simpl. unfold loadResolved.
  rewrite Hlr, Hst.
  pose proof (reachable_loadsArmed toLowerCase w Hw) as Ha.
  unfold loadsArmed in Ha. rewrite Forall_lookup in Ha.
  rewrite (Ha run lr Hlr). simpl. unfold finallyLoad. rewrite (Ha run lr Hlr). simpl.
  split; [by intros []|]. do 4 (split; [done|]).
  intros (lr' & Hlr' & Hst'). simpl in Hlr'.
  rewrite list_lookup_insert_eq in Hlr' by (by apply lookup_lt_Some in Hlr).
  by simplify_eq.
Qed.

Lemma load_replaces_form_witness :
  let w := exec asciiToLowerCase
             [EffectRun; Edit FHandle (lit "typed"); Edit FBio (lit "typed too")] start in
  let w' := step asciiToLowerCase (LoadResolved 0 sampleUser) w in
  handle (form (page w)) = Some (lit "typed") ∧
  handle (form (page w')) = Some [] ∧
  bio (form (page w')) = Some (lit "hi") ∧
  isLoading (page w') = false.
Proof.
  split; [reflexivity|].
  destruct (load_replaces_form asciiToLowerCase
              (exec asciiToLowerCase
                 [EffectRun; Edit FHandle (lit "typed"); Edit FBio (lit "typed too")] start)
              0 sampleUser) as (Hf & Hl & _).
  - apply page_exec_reachable. constructor.
  - eexists. split; reflexivity.
  - split; [exact (Hf FHandle)|]. split; [exact (Hf FBio)|exact Hl].
Defined.

(** X16: when a profile request fails, the form, the saving flag and
    the outputs stay as they are: no toast, no request; the error is
    logged and the loading flag is lowered, which enables the form
    again. *)
Theorem load_failure_keeps_form (toLowerCase : jsstring → jsstring)
    (w : PageWorld) (run : nat) (err : jsstring) :
  reachable toLowerCase w → loading w run →
  let w' := step toLowerCase (LoadRejected run err) w in
  page w' = setIsLoading false (page w) ∧
  console w' = console w ++ [LogErr err] ∧
  saves w' = saves w ∧
  ¬ loading w' run.
Proof.
  intros Hw (lr & Hlr & Hst). cbv zeta. simpl. unfold loadRejected.
  rewrite Hlr, Hst.
  pose proof (reachable_loadsArmed toLowerCase w Hw) as Ha.
  unfold loadsArmed in Ha. rewrite Forall_lookup in Ha.
  unfold finallyLoad. rewrite (Ha run lr Hlr). simpl.
  do 3 (split; [done|]).
  intros (lr' & Hlr' & Hst'). simpl in Hlr'.
  rewrite list_lookup_insert_eq in Hlr' by (by apply lookup_lt_Some in Hlr).
  by simplify_eq.
Qed.

Lemma load_failure_keeps_form_witness :
  let w := exec asciiToLowerCase [EffectRun; Edit FHandle (lit "typed")] start in
  let w' := step asciiToLowerCase (LoadRejected 0 (lit "Network Error")) w in
  isLoading (page w) = true ∧
  page w' = setIsLoading false (page w) ∧
  console w' = [LogErr (lit "Network Error")].
Proof.
  split; [reflexivity|].
  destruct (load_failure_keeps_form asciiToLowerCase
              (exec asciiToLowerCase [EffectRun; Edit FHandle (lit "typed")] start)
              0 (lit "Network Error")) as (Hp & Hc & _).
  - apply page_exec_reachable. constructor.
  - eexists. split; reflexivity.
  - split; [exact Hp|exact Hc].
Defined.

(** X17: a successful save replaces the form by the record the server
    returned ([null] as the empty string), shows exactly one success
    toast after the one request, and lowers the saving flag; a field
    the server returned as [null] or blank is then left out of the
    payload of the next submission. *)
Theorem save_success_resets_form (toLowerCase : jsstring → jsstring)
    (p : Page) (apiResponse : UserResponse) :
  let p' := handleSubmit toLowerCase (PatchOk apiResponse) p in
  form p' = fromResponse apiResponse ∧
  out p' = out p ++
    [Patch "/api/me" (buildPayload toLowerCase (ProfileSchema (form p)));
     ToastSuccess {| title := "Profile updated successfully";
                     description := "your changes have been saved" |}] ∧
  isSaving p' = false ∧
  (∀ f, buildPayload toLowerCase (ProfileSchema (form p')) !! fieldName f = None ↔
        respField f apiResponse = None ∨
        ∃ s, respField f apiResponse = Some s ∧ forallb isWhiteSpace s = true).
Proof.
  cbv zeta.
  assert (Hform : form (handleSubmit toLowerCase (PatchOk apiResponse) p)
                  = fromResponse apiResponse) by reflexivity.
  split; [exact Hform|]. split.
  { unfold handleSubmit, onSubmit, onSubmitEnd, onSubmitBegin. simpl.
    by rewrite <- app_assoc. }
  split; [reflexivity|].
  intros f. rewrite Hform, buildPayload_lookup, get_ProfileSchema, optionalText_sent.
  assert (Hg : get f (fromResponse apiResponse) = Some (default [] (respField f apiResponse)))
    by (by destruct f).
  rewrite Hg. split.
  - intros Hn.
    assert (Ho : optionalText (Some (default [] (respField f apiResponse))) = None).
    { destruct (optionalText _); [by destruct f|done]. }
    apply optionalText_None in Ho as [|(s & [= <-] & Hs)]; [done|].
    destruct (respField f apiResponse) as [s|]; [right|by left].
    by exists s.
  - intros Hr.
    assert (Ho : optionalText (Some (default [] (respField f apiResponse))) = None).
    { apply optionalText_None. right. eexists. split; [reflexivity|].
      destruct Hr as [->|(s & -> & Hs)]; [done|exact Hs]. }
    by rewrite Ho.
Qed.

Lemma save_success_resets_form_witness :
  let p' := handleSubmit asciiToLowerCase (PatchOk sampleUser) typed in
  form p' = fromResponse sampleUser ∧
  buildPayload asciiToLowerCase (ProfileSchema (form p')) !! "handle" = None.
Proof.
  destruct (save_success_resets_form asciiToLowerCase typed sampleUser)
    as (Hf & _ & _ & Hk).
  split; [exact Hf|]. apply (Hk FHandle). by left.
Defined.

End ProfileMore.
